(** * mongo-sanitizer: the recursive sanitization engine

    A shallow embedding of [sanitize-utils.ts] (the functions
    [isPlainObject], [_sanitize], [_recursiveSanitize], [sanitize] and
    [has]) together with the two library operations the engine is built on:
    [String.prototype.match] / [String.prototype.replace] applied to the two
    module-level regular expressions, and lodash's [cloneDeep]; and of the
    Express middleware of [index.ts] (module [Middleware]).

    Two views of the same code are given.

    - The _tree view_ treats JavaScript values as immutable trees.  The flag
      [hasSanitized], which the source keeps in a closure variable, is passed
      explicitly through every call.
    - The _store view_ (module [Store]) keeps objects and arrays in a heap of
      cells addressed by locations, so that allocation ([{}], [Array.map],
      [cloneDeep]) and in-place writes ([newObj[newKey] = ...]) are visible.
      It is related to the tree view by the refinement theorem
      [StoreFacts.sanitize_refine].

    Modelling conventions.  A JavaScript string is a [string]; the engine only
    ever distinguishes the two characters [$] and [.].  An object whose
    prototype is [Object.prototype] is a [VObject]: the list of its own
    enumerable properties in the order of their creation, which is the order
    of [for ... in] as long as no name is an array index (JavaScript
    enumerates such names first; their place is not modelled).  Whether the
    engine takes it for a plain object depends on its own property
    [constructor], if it has one.  Objects of another prototype (class
    instances, dates, maps) are [VInstance]; functions are [VFunction].

    An assignment to the name [__proto__] creates no property.  The
    prototype it may install is not recorded, and an own property of that
    name, which only [JSON.parse] and [Object.defineProperty] create and
    which the copy made by lodash does not keep, is outside the model: the
    theorems that depend on it are stated for trees without such a property
    ([ordinary]). *)

From Stdlib Require Import String Ascii ZArith List Bool Lia.
From stdpp Require Import base tactics option list gmap strings.

Open Scope string_scope.
Open Scope list_scope.

(* ================================================================= *)
(** ** Strings and the two regular expressions *)

(** A global regular expression that is a single character class. *)
Definition regex := ascii -> bool.

(** [const NO_SQL_CHARS_TO_REPLACE = /\$/g] *)
Definition NO_SQL_CHARS_TO_REPLACE : regex :=
  fun c => Ascii.eqb c "$".

(** [const DOT_NO_SQL_CHARS_TO_REPLACE = /[\$\.]/g] *)
Definition DOT_NO_SQL_CHARS_TO_REPLACE : regex :=
  fun c => Ascii.eqb c "$" || Ascii.eqb c ".".

(** All matches of a character class in a string, left to right. *)
Fixpoint matches (re : regex) (s : string) : list string :=
  match s with
  | EmptyString => []
  | String c rest =>
      if re c then String c EmptyString :: matches re rest
      else matches re rest
  end.

(** [str.match(re)] for a global regex: the array of all matches, or [null]
    when there is none. *)
Definition String_match (s : string) (re : regex) : option (list string) :=
  match matches re s with
  | [] => None
  | ms => Some ms
  end.

(** Truthiness of the result of [match], as tested by [if (s.match(re))]. *)
Definition truthy {A} (o : option A) : bool :=
  match o with Some _ => true | None => false end.

(** ECMAScript [GetSubstitution] for a pattern without capture groups: in the
    replacement text, [$$] stands for a dollar sign, [$&] for the matched
    character, [$`] for the text before the match and [$'] for the text after
    it.  [$n] and [$<] refer to groups the two patterns do not have and are
    therefore copied as they are, like every other character. *)
Fixpoint GetSubstitution (matched : ascii) (before after : string)
    (replacement : string) : string :=
  match replacement with
  | EmptyString => EmptyString
  | String c rest =>
      if Ascii.eqb c "$" then
        match rest with
        | EmptyString => String c EmptyString
        | String d rest' =>
            if Ascii.eqb d "$" then
              String "$" (GetSubstitution matched before after rest')
            else if Ascii.eqb d "&" then
              String matched (GetSubstitution matched before after rest')
            else if Ascii.eqb d "`" then
              before +:+ GetSubstitution matched before after rest'
            else if Ascii.eqb d "'" then
              after +:+ GetSubstitution matched before after rest'
            else
              String c (GetSubstitution matched before after rest)
        end
      else String c (GetSubstitution matched before after rest)
  end.

(** The scan of [replace]: [before] is the part of the subject string already
    passed, [s] the part still to be scanned. *)
Fixpoint replace_from (re : regex) (replaceValue : string)
    (before s : string) : string :=
  match s with
  | EmptyString => EmptyString
  | String c rest =>
      let before' := before +:+ String c EmptyString in
      if re c then
        GetSubstitution c before rest replaceValue
          +:+ replace_from re replaceValue before' rest
      else String c (replace_from re replaceValue before' rest)
  end.

(** [str.replace(re, replaceValue)] for a global regex and a string
    replacement. *)
Definition String_replace (s : string) (re : regex) (replaceValue : string)
    : string :=
  replace_from re replaceValue EmptyString s.

(* ================================================================= *)
(** ** Objects as ordered property lists *)

(** The name whose assignment reaches the setter of [Object.prototype]. *)
Definition proto_name : string := "__proto__".

(** An own data property [key] receives [v]: the entry of [key] is
    overwritten where it stands, or a new last entry is added. *)
Fixpoint put_own {V} (obj : list (string * V)) (key : string) (v : V)
    : list (string * V) :=
  match obj with
  | [] => [(key, v)]
  | (k, w) :: rest =>
      if String.eqb k key then (k, v) :: rest
      else (k, w) :: put_own rest key v
  end.

(** [obj[key] = v] on an object created by [{}].  For every name but
    [__proto__] this writes the own data property.  For [__proto__] the
    assignment reaches the setter inherited from [Object.prototype]: no own
    property is created (the setter replaces the prototype of [obj] when [v]
    is an object or [null], and does nothing otherwise). *)
Definition obj_set {V} (obj : list (string * V)) (key : string) (v : V)
    : list (string * V) :=
  if String.eqb key proto_name then obj else put_own obj key v.

(** [obj[key]], for own properties. *)
Fixpoint obj_get {V} (obj : list (string * V)) (key : string) : option V :=
  match obj with
  | [] => None
  | (k, w) :: rest => if String.eqb k key then Some w else obj_get rest key
  end.

(* ================================================================= *)
(** ** Values, options and results *)

(** JavaScript values as the engine can tell them apart.  The induction
    principle that reaches below containers is [value_induction]. *)
Unset Elimination Schemes.
Inductive value : Type :=
  | VString (s : string)
  | VNumber (n : Z)
  | VBoolean (b : bool)
  | VNull
  | VUndefined
  | VFunction (name : string)
  | VInstance (constructor : string) (fields : list (string * value))
  | VObject (fields : list (string * value))
  | VArray (items : list value).
Set Elimination Schemes.

(** The result of [typeof]. *)
Inductive jstype := TString | TNumber | TBoolean | TObject | TUndefined
  | TFunction.

Definition typeof (v : value) : jstype :=
  match v with
  | VString _ => TString
  | VNumber _ => TNumber
  | VBoolean _ => TBoolean
  | VNull | VInstance _ _ | VObject _ | VArray _ => TObject
  | VUndefined => TUndefined
  | VFunction _ => TFunction
  end.

Definition jstype_eqb (a b : jstype) : bool :=
  match a, b with
  | TString, TString | TNumber, TNumber | TBoolean, TBoolean
  | TObject, TObject | TUndefined, TUndefined | TFunction, TFunction => true
  | _, _ => false
  end.

Definition is_null (v : value) : bool :=
  match v with VNull => true | _ => false end.

Definition Array_isArray (v : value) : bool :=
  match v with VArray _ => true | _ => false end.

(** The global function [Object]; a function is known by its name. *)
Definition is_Object_function (v : value) : bool :=
  match v with VFunction name => String.eqb name "Object" | _ => false end.

(** [val.constructor === Object].  An object created by a literal, by
    [JSON.parse] or by a parser finds [constructor] in [Object.prototype],
    unless it has an own property of that name, which is then compared; an
    object of another constructor finds its own. *)
Definition constructor_is_Object (v : value) : bool :=
  match v with
  | VObject fields =>
      match obj_get fields "constructor" with
      | None => true
      | Some c => is_Object_function c
      end
  | _ => false
  end.

(** [isPlainObject]:
    [typeof val === 'object' && val !== null && !Array.isArray(val) &&
     val.constructor === Object] *)
Definition isPlainObject (val : value) : bool :=
  jstype_eqb (typeof val) TObject
  && negb (is_null val)
  && negb (Array_isArray val)
  && constructor_is_Object val.

(** The [options] argument; [None] is an absent property. *)
Record Options := mkOptions {
  replaceWith : option value;
  dryRun : option bool;
  allowDots : option bool
}.

(** The empty object [{}] used as default argument. *)
Definition no_options : Options := mkOptions None None None.

(** The pair returned by [_sanitize]. *)
Record Result := mkResult {
  isSanitized : bool;
  target : value
}.

(** [options.hasOwnProperty('replaceWith') &&
     typeof options.replaceWith === 'string' ? options.replaceWith : '_'] *)
Definition opt_replaceWith (options : Options) : string :=
  match replaceWith options with
  | Some (VString s) => s
  | _ => "_"
  end.

(** [options.dryRun || false] and [options.allowDots || false] *)
Definition opt_flag (o : option bool) : bool :=
  match o with Some b => b | None => false end.

(** The pattern chosen by [allowDots ? NO_SQL_CHARS_TO_REPLACE :
    DOT_NO_SQL_CHARS_TO_REPLACE]. *)
Definition charRegex (allowDots : bool) : regex :=
  if allowDots then NO_SQL_CHARS_TO_REPLACE else DOT_NO_SQL_CHARS_TO_REPLACE.

(** lodash's [cloneDeep]: a structurally equal copy.  On immutable trees the
    copy is the tree itself; [Store.cloneDeep] allocates it.  (lodash assigns
    the properties one by one, so that the copy of an object with an own
    property [__proto__] has another prototype instead of that property;
    this is the case the model leaves out.) *)
Definition cloneDeep (v : value) : value := v.

(* ================================================================= *)
(** ** The engine, tree view *)

Section Engine.
(** The closure of [_sanitize]: the three settings read from [options]. *)
Variables (replaceWith_ : string) (dryRun_ allowDots_ : bool).

Section Loops.
(** The recursive call, available inside the two loops. *)
Variable _recursiveSanitize_ : value -> bool -> value * bool.

(** The body of [for (const key in current)], run over the remaining
    entries; [newObj] is the object under construction and [hasSanitized]
    the closure flag. *)
Fixpoint for_in (entries : list (string * value))
    (newObj : list (string * value)) (hasSanitized : bool)
    : list (string * value) * bool :=
  match entries with
  | [] => (newObj, hasSanitized)
  | (key, val) :: rest =>
      let keyCharRegex := charRegex allowDots_ in
      let '(newKey, hasSanitized) :=
        if truthy (String_match key keyCharRegex) then
          (String_replace key keyCharRegex replaceWith_,
           if negb dryRun_ then true else hasSanitized)
        else (key, hasSanitized) in
      if isPlainObject val || Array_isArray val then
        let '(r, hasSanitized) := _recursiveSanitize_ val hasSanitized in
        for_in rest (obj_set newObj newKey r) hasSanitized
      else
        match val with
        | VString s =>
            let valCharRegex := charRegex allowDots_ in
            if truthy (String_match s valCharRegex) then
              if negb dryRun_ then
                for_in rest
                  (obj_set newObj newKey
                     (VString (String_replace s valCharRegex replaceWith_)))
                  true
              else for_in rest (obj_set newObj newKey val) hasSanitized
            else for_in rest (obj_set newObj newKey val) hasSanitized
        | _ => for_in rest (obj_set newObj newKey val) hasSanitized
        end
  end.

(** The callback of [current.map((item) => ...)]. *)
Definition map_item (item : value) (hasSanitized : bool) : value * bool :=
  if isPlainObject item || Array_isArray item then
    _recursiveSanitize_ item hasSanitized
  else
    match item with
    | VString s =>
        let itemCharRegex := charRegex allowDots_ in
        if truthy (String_match s itemCharRegex) && negb dryRun_ then
          (VString (String_replace s itemCharRegex replaceWith_), true)
        else (item, hasSanitized)
    | _ => (item, hasSanitized)
    end.

(** [Array.prototype.map] with that callback, left to right. *)
Fixpoint Array_map (items : list value) (hasSanitized : bool)
    : list value * bool :=
  match items with
  | [] => ([], hasSanitized)
  | item :: rest =>
      let '(r, hasSanitized) := map_item item hasSanitized in
      let '(rs, hasSanitized) := Array_map rest hasSanitized in
      (r :: rs, hasSanitized)
  end.
End Loops.

(** [function _recursiveSanitize(current)] *)
Fixpoint _recursiveSanitize (current : value) (hasSanitized : bool)
    {struct current} : value * bool :=
  match current with
  | VObject fields =>
      if isPlainObject current then
        let '(newObj, hasSanitized) :=
          for_in _recursiveSanitize fields [] hasSanitized in
        (VObject newObj, hasSanitized)
      else (current, hasSanitized)
  | VArray items =>
      let '(rs, hasSanitized) :=
        Array_map _recursiveSanitize items hasSanitized in
      (VArray rs, hasSanitized)
  | _ => (current, hasSanitized)
  end.
End Engine.

(** [export function _sanitize(obj, options = {})] *)
Definition _sanitize (obj : value) (options : Options) : Result :=
  let replaceWith := opt_replaceWith options in
  let dryRun := opt_flag (dryRun options) in
  let allowDots := opt_flag (allowDots options) in
  let hasSanitized := false in
  match obj with
  | VString s =>
      let charRegex := charRegex allowDots in
      if truthy (String_match s charRegex) then
        mkResult true
          (if dryRun then obj
           else VString (String_replace s charRegex replaceWith))
      else mkResult hasSanitized obj
  | _ =>
      if negb (isPlainObject obj) && negb (Array_isArray obj) then
        mkResult hasSanitized obj
      else
        let target := cloneDeep obj in
        let '(sanitizedTarget, hasSanitized) :=
          _recursiveSanitize replaceWith dryRun allowDots target hasSanitized in
        mkResult hasSanitized (if dryRun then obj else sanitizedTarget)
  end.

(** [export function sanitize(value, options?)]; an omitted [options] is
    replaced by the default argument [{}] of [_sanitize]. *)
Definition sanitize (v : value) (options : option Options) : value :=
  target (_sanitize v (default no_options options)).

(** [export function has(value)] *)
Definition has (v : value) : bool :=
  isSanitized (_sanitize v (mkOptions None (Some true) None)).

(* ================================================================= *)
(** ** The engine, store view *)

Module Store.

(** Heap locations. *)
Definition loc := nat.

(** A value held in a variable or a property: a primitive, a function, or
    a reference to a heap cell. *)
Inductive hvalue : Type :=
  | HString (s : string)
  | HNumber (n : Z)
  | HBoolean (b : bool)
  | HNull
  | HUndefined
  | HFunction (name : string)
  | HRef (l : loc).

(** A heap cell: a plain object, an object of another constructor, or an
    array. *)
Inductive cell : Type :=
  | CObject (fields : list (string * hvalue))
  | CInstance (constructor : string) (fields : list (string * hvalue))
  | CArray (items : list hvalue).

Abbreviation heap := (gmap loc cell).

(** Allocation of a new cell at an unused location. *)
Definition alloc (h : heap) (c : cell) : loc * heap :=
  let l := fresh (dom h) in (l, <[l := c]> h).

(** The global function [Object]. *)
Definition is_Object_function (v : hvalue) : bool :=
  match v with HFunction name => String.eqb name "Object" | _ => false end.

(** [isPlainObject]; [val.constructor] is the own property of that name
    when the cell has one, and otherwise the one of the prototype. *)
Definition isPlainObject (h : heap) (val : hvalue) : bool :=
  match val with
  | HRef l =>
      match h !! l with
      | Some (CObject fields) =>
          match obj_get fields "constructor" with
          | None => true
          | Some c => is_Object_function c
          end
      | _ => false
      end
  | _ => false
  end.

Definition Array_isArray (h : heap) (val : hvalue) : bool :=
  match val with
  | HRef l => match h !! l with Some (CArray _) => true | _ => false end
  | _ => false
  end.

(** [current[key]] for an own property of a plain object, [None] when
    [hasOwnProperty] fails. *)
Definition get_prop (h : heap) (current : loc) (key : string)
    : option hvalue :=
  match h !! current with
  | Some (CObject fields) => obj_get fields key
  | _ => None
  end.

(** [newObj[newKey] = v]: an in-place write to the cell of [newObj]. *)
Definition set_prop (h : heap) (newObj : loc) (newKey : string) (v : hvalue)
    : heap :=
  match h !! newObj with
  | Some (CObject fields) => <[newObj := CObject (obj_set fields newKey v)]> h
  | _ => h
  end.

(** Reading a property with a reader for its value. *)
Definition read_field (rd : hvalue -> option value) (kv : string * hvalue)
    : option (string * value) :=
  w ← rd kv.2; Some (kv.1, w).

(** The tree a value stands for in a heap, followed to depth [depth];
    [None] when the structure is deeper or a reference dangles. *)
Fixpoint read (depth : nat) (h : heap) (v : hvalue) : option value :=
  match v with
  | HString s => Some (VString s)
  | HNumber n => Some (VNumber n)
  | HBoolean b => Some (VBoolean b)
  | HNull => Some VNull
  | HUndefined => Some VUndefined
  | HFunction name => Some (VFunction name)
  | HRef l =>
      match depth with
      | 0 => None
      | S depth' =>
          match h !! l with
          | Some (CObject fields) =>
              VObject <$> mapM (read_field (read depth' h)) fields
          | Some (CInstance c fields) =>
              VInstance c <$> mapM (read_field (read depth' h)) fields
          | Some (CArray items) => VArray <$> mapM (read depth' h) items
          | None => None
          end
      end
  end.

(** The heap without the cells at the locations in [X]. *)
Definition without (X : gset loc) (h : heap) : heap :=
  filter (fun lc => lc.1 ∉ X) h.

Section Clone.
Variable cloneDeep_ : hvalue -> heap -> option (hvalue * heap).

(** Copy the property values of an object one after the other. *)
Fixpoint clone_fields (fields : list (string * hvalue)) (h : heap)
    : option (list (string * hvalue) * heap) :=
  match fields with
  | [] => Some ([], h)
  | (k, v) :: rest =>
      '(v', h) ← cloneDeep_ v h;
      '(rest', h) ← clone_fields rest h;
      Some ((k, v') :: rest', h)
  end.

(** Copy the elements of an array one after the other. *)
Fixpoint clone_items (items : list hvalue) (h : heap)
    : option (list hvalue * heap) :=
  match items with
  | [] => Some ([], h)
  | v :: rest =>
      '(v', h) ← cloneDeep_ v h;
      '(rest', h) ← clone_items rest h;
      Some (v' :: rest', h)
  end.
End Clone.

(** lodash's [cloneDeep], the library function the source imports:
    primitives and functions are returned as they are, a function being
    shared between the copy and the original; every object or array reached
    is copied into a newly allocated cell.  [fuel] bounds the nesting depth
    followed. *)
Fixpoint cloneDeep (fuel : nat) (v : hvalue) (h : heap)
    : option (hvalue * heap) :=
  match v with
  | HRef l =>
      match fuel with
      | 0 => None
      | S fuel' =>
          match h !! l with
          | Some (CObject fields) =>
              '(fields', h) ← clone_fields (cloneDeep fuel') fields h;
              let '(l', h) := alloc h (CObject fields') in
              Some (HRef l', h)
          | Some (CInstance c fields) =>
              '(fields', h) ← clone_fields (cloneDeep fuel') fields h;
              let '(l', h) := alloc h (CInstance c fields') in
              Some (HRef l', h)
          | Some (CArray items) =>
              '(items', h) ← clone_items (cloneDeep fuel') items h;
              let '(l', h) := alloc h (CArray items') in
              Some (HRef l', h)
          | None => None
          end
      end
  | _ => Some (v, h)
  end.

Section Engine.
Variables (replaceWith_ : string) (dryRun_ allowDots_ : bool).

Section Loops.
Variable _recursiveSanitize_ :
  hvalue -> heap -> bool -> option (hvalue * heap * bool).

(** The body of [for (const key in current)] over the remaining keys;
    [newObj] is the location of the object under construction. *)
Fixpoint for_in (current newObj : loc) (keys : list string)
    (h : heap) (hasSanitized : bool) : option (heap * bool) :=
  match keys with
  | [] => Some (h, hasSanitized)
  | key :: rest =>
      match get_prop h current key with
      | None => for_in current newObj rest h hasSanitized
      | Some val =>
          let keyCharRegex := charRegex allowDots_ in
          let '(newKey, hasSanitized) :=
            if truthy (String_match key keyCharRegex) then
              (String_replace key keyCharRegex replaceWith_,
               if negb dryRun_ then true else hasSanitized)
            else (key, hasSanitized) in
          if isPlainObject h val || Array_isArray h val then
            '(r, h, hasSanitized) ← _recursiveSanitize_ val h hasSanitized;
            for_in current newObj rest (set_prop h newObj newKey r)
              hasSanitized
          else
            match val with
            | HString s =>
                let valCharRegex := charRegex allowDots_ in
                if truthy (String_match s valCharRegex) then
                  if negb dryRun_ then
                    for_in current newObj rest
                      (set_prop h newObj newKey
                         (HString
                            (String_replace s valCharRegex replaceWith_)))
                      true
                  else
                    for_in current newObj rest
                      (set_prop h newObj newKey val) hasSanitized
                else
                  for_in current newObj rest
                    (set_prop h newObj newKey val) hasSanitized
            | _ =>
                for_in current newObj rest
                  (set_prop h newObj newKey val) hasSanitized
            end
      end
  end.

(** The callback of [current.map((item) => ...)]. *)
Definition map_item (item : hvalue) (h : heap) (hasSanitized : bool)
    : option (hvalue * heap * bool) :=
  if isPlainObject h item || Array_isArray h item then
    _recursiveSanitize_ item h hasSanitized
  else
    match item with
    | HString s =>
        let itemCharRegex := charRegex allowDots_ in
        if truthy (String_match s itemCharRegex) && negb dryRun_ then
          Some (HString (String_replace s itemCharRegex replaceWith_),
                h, true)
        else Some (item, h, hasSanitized)
    | _ => Some (item, h, hasSanitized)
    end.

(** [Array.prototype.map] with that callback, left to right. *)
Fixpoint Array_map (items : list hvalue) (h : heap) (hasSanitized : bool)
    : option (list hvalue * heap * bool) :=
  match items with
  | [] => Some ([], h, hasSanitized)
  | item :: rest =>
      '(r, h, hasSanitized) ← map_item item h hasSanitized;
      '(rs, h, hasSanitized) ← Array_map rest h hasSanitized;
      Some (r :: rs, h, hasSanitized)
  end.
End Loops.

(** [function _recursiveSanitize(current)]: [newObj = {}] allocates the
    object that the loop then fills, [map] allocates the array of the
    results.  [fuel] bounds the depth of the recursion. *)
Fixpoint _recursiveSanitize (fuel : nat) (current : hvalue) (h : heap)
    (hasSanitized : bool) : option (hvalue * heap * bool) :=
  match current with
  | HRef l =>
      match h !! l with
      | Some (CObject fields) =>
          if isPlainObject h current then
            match fuel with
            | 0 => None
            | S fuel' =>
                let '(newObj, h) := alloc h (CObject []) in
                '(h, hasSanitized) ←
                  for_in (_recursiveSanitize fuel') l newObj (fields.*1) h
                    hasSanitized;
                Some (HRef newObj, h, hasSanitized)
            end
          else Some (current, h, hasSanitized)
      | Some (CArray items) =>
          match fuel with
          | 0 => None
          | S fuel' =>
              '(rs, h, hasSanitized) ←
                Array_map (_recursiveSanitize fuel') items h hasSanitized;
              let '(arr, h) := alloc h (CArray rs) in
              Some (HRef arr, h, hasSanitized)
          end
      | _ => Some (current, h, hasSanitized)
      end
  | _ => Some (current, h, hasSanitized)
  end.
End Engine.

(** The pair returned by [_sanitize]. *)
Record Result := mkResult {
  isSanitized : bool;
  target : hvalue
}.

(** [export function _sanitize(obj, options = {})]; the [options] object
    holds primitives only and is the one of the tree view. *)
Definition _sanitize (fuel : nat) (obj : hvalue) (options : Options)
    (h : heap) : option (Result * heap) :=
  let replaceWith := opt_replaceWith options in
  let dryRun := opt_flag (dryRun options) in
  let allowDots := opt_flag (allowDots options) in
  let hasSanitized := false in
  match obj with
  | HString s =>
      let charRegex := charRegex allowDots in
      if truthy (String_match s charRegex) then
        Some (mkResult true
                (if dryRun then obj
                 else HString (String_replace s charRegex replaceWith)), h)
      else Some (mkResult hasSanitized obj, h)
  | _ =>
      if negb (isPlainObject h obj) && negb (Array_isArray h obj) then
        Some (mkResult hasSanitized obj, h)
      else
        '(target, h) ← cloneDeep fuel obj h;
        '(sanitizedTarget, h, hasSanitized) ←
          _recursiveSanitize replaceWith dryRun allowDots fuel target h
            hasSanitized;
        Some (mkResult hasSanitized (if dryRun then obj else sanitizedTarget),
              h)
  end.

End Store.

(* ================================================================= *)
(** ** Notions used to state the properties *)

(** Forbidden character: [$] always, and [.] unless dots are allowed. *)
Definition forbidden (allowDots : bool) (c : ascii) : bool :=
  Ascii.eqb c "$" || (negb allowDots && Ascii.eqb c ".").

(** Some character of [s] satisfies [p]. *)
Fixpoint string_has (p : ascii -> bool) (s : string) : bool :=
  match s with
  | EmptyString => false
  | String c rest => p c || string_has p rest
  end.

(** A forbidden character occurs in some mapping key or some string value of
    the tree reachable from [v]: through plain objects and arrays, the root
    included when it is a string. *)
Fixpoint tree_has (allowDots : bool) (v : value) : bool :=
  match v with
  | VString s => string_has (forbidden allowDots) s
  | VObject fields =>
      isPlainObject v
      && existsb (fun kv => string_has (forbidden allowDots) (fst kv)
                            || tree_has allowDots (snd kv)) fields
  | VArray items => existsb (tree_has allowDots) items
  | _ => false
  end.

(** The same about the entries of an object. *)
Definition entries_have (allowDots : bool) (entries : list (string * value))
    : bool :=
  existsb (fun kv => string_has (forbidden allowDots) (fst kv)
                     || tree_has allowDots (snd kv)) entries.

(** The value is a plain object or an array. *)
Definition is_container (v : value) : bool :=
  isPlainObject v || Array_isArray v.

(** What the traversal of a container adds to the closure flag. *)
Definition flag_after (dryRun allowDots : bool) (hs : bool) (v : value)
    : bool :=
  hs || (negb dryRun && is_container v && tree_has allowDots v).

(** The key under which the loop stores an entry. *)
Definition newKey_of (r : string) (allowDots : bool) (key : string) : string :=
  if truthy (String_match key (charRegex allowDots)) then
    String_replace key (charRegex allowDots) r
  else key.

(** The value the engine puts in place of a property value or an array
    element. *)
Definition child_of (r : string) (dryRun allowDots : bool) (v : value)
    : value :=
  fst (map_item r dryRun allowDots (_recursiveSanitize r dryRun allowDots)
         v false).

(** One round of the loop seen from [newObj]. *)
Definition store_entry (r : string) (dryRun allowDots : bool)
    (newObj : list (string * value)) (kv : string * value)
    : list (string * value) :=
  obj_set newObj (newKey_of r allowDots (fst kv))
    (child_of r dryRun allowDots (snd kv)).

(** The replacement text holds one of the patterns [$$], [$&], [$`], [$']
    that [replace] expands. *)
Fixpoint has_pattern (replacement : string) : bool :=
  match replacement with
  | EmptyString => false
  | String c rest =>
      (Ascii.eqb c "$"
       && match rest with
          | EmptyString => false
          | String d _ =>
              Ascii.eqb d "$" || Ascii.eqb d "&" || Ascii.eqb d "`"
              || Ascii.eqb d "'"
          end)
      || has_pattern rest
  end.

(** Every character of [s] that satisfies [p] replaced by the text [r], taken
    as it is. *)
Fixpoint replace_literally (p : ascii -> bool) (r : string) (s : string)
    : string :=
  match s with
  | EmptyString => EmptyString
  | String c rest =>
      if p c then r +:+ replace_literally p r rest
      else String c (replace_literally p r rest)
  end.

(** [key in obj], for own properties. *)
Fixpoint has_key {V} (obj : list (string * V)) (key : string) : bool :=
  match obj with
  | [] => false
  | (k, _) :: rest => String.eqb k key || has_key rest key
  end.

(** No property name occurs twice in the list. *)
Fixpoint distinct_keys {V} (obj : list (string * V)) : bool :=
  match obj with
  | [] => true
  | (k, _) :: rest => negb (has_key rest k) && distinct_keys rest
  end.

(** The tree is the image of JavaScript data: every object reached through
    objects and arrays has pairwise distinct property names. *)
Fixpoint wf_value (v : value) : bool :=
  match v with
  | VObject fields =>
      distinct_keys fields && forallb (fun kv => wf_value (snd kv)) fields
  | VArray items => forallb wf_value items
  | _ => true
  end.

(** The default policy: [replaceWith] is ["_"], no dry run, dots are
    forbidden. *)
Definition default_options : Options :=
  mkOptions (Some (VString "_")) (Some false) (Some false).

(** The engine has nothing to do on the tree: no string it reaches holds a
    forbidden character, and every plain object it reaches has pairwise
    distinct names, none of which holds a forbidden character or is
    [__proto__]. *)
Fixpoint stable (allowDots : bool) (v : value) : bool :=
  match v with
  | VString s => negb (string_has (forbidden allowDots) s)
  | VObject fields =>
      negb (isPlainObject v)
      || (distinct_keys fields
          && forallb (fun kv =>
                        negb (string_has (forbidden allowDots) (fst kv))
                        && negb (String.eqb (fst kv) proto_name)
                        && stable allowDots (snd kv)) fields)
  | VArray items => forallb (stable allowDots) items
  | _ => true
  end.

(** No object of the tree, plain or not, has an own property named
    [__proto__]. *)
Fixpoint ordinary (v : value) : bool :=
  match v with
  | VObject fields | VInstance _ fields =>
      negb (has_key fields proto_name)
      && forallb (fun kv => ordinary (snd kv)) fields
  | VArray items => forallb ordinary items
  | _ => true
  end.

(** A forbidden character occurs in some property name or some string
    anywhere in the tree, in whatever kind of object. *)
Fixpoint occurs (allowDots : bool) (v : value) : bool :=
  match v with
  | VString s => string_has (forbidden allowDots) s
  | VObject fields | VInstance _ fields =>
      existsb (fun kv => string_has (forbidden allowDots) (fst kv)
                         || occurs allowDots (snd kv)) fields
  | VArray items => existsb (occurs allowDots) items
  | _ => false
  end.

(** The tree is made of plain objects, arrays, strings, numbers, booleans,
    [null] and [undefined] only. *)
Fixpoint plain_data (v : value) : bool :=
  match v with
  | VObject fields =>
      isPlainObject v && forallb (fun kv => plain_data (snd kv)) fields
  | VArray items => forallb plain_data items
  | VFunction _ | VInstance _ _ => false
  | _ => true
  end.

(** The name may be an array index, which JavaScript enumerates before the
    other names: a string of decimal digits. *)
Definition is_digit (c : ascii) : bool :=
  Nat.leb 48 (nat_of_ascii c) && Nat.leb (nat_of_ascii c) 57.

Fixpoint all_digits (s : string) : bool :=
  match s with
  | EmptyString => true
  | String c rest => is_digit c && all_digits rest
  end.

Definition index_like (s : string) : bool :=
  negb (String.eqb s EmptyString) && all_digits s.

(** The name a property name is turned into: the string [sanitize] returns
    for it. *)
Definition sanitized_key (options : Options) (key : string) : string :=
  match sanitize (VString key) (Some options) with
  | VString k => k
  | _ => key
  end.

(** The value of the last entry of [entries] whose name is turned into
    [k']. *)
Fixpoint last_entry (sk : string -> string) (k' : string)
    (entries : list (string * value)) : option value :=
  match entries with
  | [] => None
  | (k, v) :: rest =>
      match last_entry sk k' rest with
      | Some w => Some w
      | None => if String.eqb (sk k) k' then Some v else None
      end
  end.

(** [w] has the container shape of [v] when property names are renamed by
    [sk]: an array corresponds to an array of the same length whose elements
    correspond in order; a plain object corresponds to an object whose
    names are the renamed names of [v], with no more entries than [v] and
    with fewer only if two different names of [v] are renamed alike, each
    entry holding a value that corresponds to a value of [v] under a name
    renamed to its name; anything else corresponds to a value of the same
    type that is no container either. *)
Unset Elimination Schemes.
Set Elimination Schemes.







(** [w] is [v] with the strings and the property names that the engine
    reaches rewritten by [f], and nothing else changed: a string becomes its
    image; an array becomes the array of the images of its elements; a plain
    object becomes an object each entry of which is the image of an entry of
    the plain object under the image of its name, every name whose image is
    not [__proto__] being represented; every other value stays as it is. *)
Unset Elimination Schemes.
Inductive rewritten (f : string -> string) : value -> value -> Prop :=
  | rewritten_string s :
      rewritten f (VString s) (VString (f s))
  | rewritten_array items items' :
      Forall2 (rewritten f) items items' ->
      rewritten f (VArray items) (VArray items')
  | rewritten_object fields fields' :
      isPlainObject (VObject fields) = true ->
      (forall k' w, In (k', w) fields' ->
                    exists k v, In (k, v) fields /\ f k = k'
                                /\ rewritten f v w) ->
      (forall k, has_key fields k = true -> f k <> proto_name ->
                 has_key fields' (f k) = true) ->
      rewritten f (VObject fields) (VObject fields')
  | rewritten_other v :
      is_container v = false -> typeof v <> TString ->
      rewritten f v v.
Set Elimination Schemes.


(* ================================================================= *)
(** ** The Express middleware ([index.ts])

    The function returned by [expressSanitize(options)] is modelled as a
    function from the request to the request it leaves and the list of the
    calls it has made, in order: calls of [options.onSanitize], each with
    the request as it is at that moment, and the call of [next].  Of the
    request only the properties the middleware reads or writes are kept.
    [qs.parse] belongs to the library [qs] and is a variable of the model;
    its result is a value of the tree view. *)

(** JavaScript truthiness, as tested by [if (v)], [!v] and [a && b]. *)
Definition ToBoolean (v : value) : bool :=
  match v with
  | VString s => negb (String.eqb s EmptyString)
  | VNumber n => negb (Z.eqb n 0)
  | VBoolean b => b
  | VNull | VUndefined => false
  | VFunction _ | VInstance _ _ | VObject _ | VArray _ => true
  end.

(** [str.indexOf(c)] for a single character; [None] stands for [-1]. *)
Fixpoint indexOf (s : string) (c : ascii) : option nat :=
  match s with
  | EmptyString => None
  | String d rest =>
      if Ascii.eqb d c then Some 0 else S <$> indexOf rest c
  end.

(** [str.substring(start)] *)
Fixpoint substring (s : string) (start : nat) : string :=
  match start, s with
  | 0, _ => s
  | S start', String _ rest => substring rest start'
  | S _, EmptyString => EmptyString
  end.

(** [Object.keys(obj)], and also [Object.getOwnPropertyNames(obj)]: the
    model has no property that is not enumerable. *)
Definition Object_keys {V} (obj : list (string * V)) : list string :=
  obj.*1.

(** The properties an object created by [{}] has after the properties of
    [obj] have been assigned to it one by one: all but [__proto__]. *)
Definition assigned {V} (obj : list (string * V)) : list (string * V) :=
  List.filter (fun kv => negb (String.eqb (fst kv) proto_name)) obj.

(** [obj[key]] as an expression: [undefined] for a missing property. *)
Definition prop (obj : list (string * value)) (key : string) : value :=
  default VUndefined (obj_get obj key).

Module Middleware.

(** The request fields the middleware can process. *)
Inductive field := body_ | params_ | query_ | headers_.

Definition field_eqb (f g : field) : bool :=
  match f, g with
  | body_, body_ | params_, params_ | query_, query_
  | headers_, headers_ => true
  | _, _ => false
  end.

(** [fields.includes(f)] *)
Definition includes (l : list field) (f : field) : bool :=
  existsb (field_eqb f) l.

(** [interface MiddlewareOptions]; [onSanitize] tells whether the property
    holds a function, a call of which is recorded as an event. *)
Record MiddlewareOptions := mkMiddlewareOptions {
  replaceWith : option value;
  onSanitize : bool;
  dryRun : option bool;
  allowDots : option bool;
  fields : option (list field)
}.

(** The options object as [_sanitize] reads it. *)
Definition engine_options (options : MiddlewareOptions) : Options :=
  mkOptions (replaceWith options) (dryRun options) (allowDots options).

(** The part of the Express request the middleware reads and writes.
    [params] is [None] when [req.params] is missing, otherwise the object
    given by its own properties; an absent [sanitized...] property is
    [VUndefined]. *)
Record Request := mkRequest {
  url : string;
  params : option (list (string * value));
  body : value;
  headers : value;
  sanitizedBody : value;
  sanitizedQuery : value;
  sanitizedParams : value;
  sanitizedHeaders : value
}.

(** Assignments to the four properties the middleware writes. *)
Definition set_sanitizedBody (req : Request) (v : value) : Request :=
  mkRequest (url req) (params req) (body req) (headers req)
    v (sanitizedQuery req) (sanitizedParams req) (sanitizedHeaders req).

Definition set_sanitizedQuery (req : Request) (v : value) : Request :=
  mkRequest (url req) (params req) (body req) (headers req)
    (sanitizedBody req) v (sanitizedParams req) (sanitizedHeaders req).

Definition set_sanitizedParams (req : Request) (v : value) : Request :=
  mkRequest (url req) (params req) (body req) (headers req)
    (sanitizedBody req) (sanitizedQuery req) v (sanitizedHeaders req).

Definition set_sanitizedHeaders (req : Request) (v : value) : Request :=
  mkRequest (url req) (params req) (body req) (headers req)
    (sanitizedBody req) (sanitizedQuery req) (sanitizedParams req) v.

(** What the middleware does to the outside: a call of [options.onSanitize]
    with the request as it is at that moment and the key, or the call of
    [next]. *)
Inductive event :=
  | OnSanitize (req : Request) (key : field)
  | Next.

(** [if (isSanitized && hasOnSanitize) options.onSanitize({ req, key })] *)
Definition notify (options : MiddlewareOptions) (isSanitized : bool)
    (key : field) (st : Request * list event) : Request * list event :=
  if isSanitized && onSanitize options then
    (st.1, st.2 ++ [OnSanitize st.1 key])
  else st.

(** [options.fields || ['body', 'params', 'query', 'headers']]; an array,
    even an empty one, is truthy. *)
Definition fieldsToSanitize (options : MiddlewareOptions) : list field :=
  match fields options with
  | Some l => l
  | None => [body_; params_; query_; headers_]
  end.

(** [if (!req.sanitizedX) req.sanitizedX = {}] *)
Definition initialize (v : value) : value :=
  if negb (ToBoolean v) then VObject [] else v.

(** The loop [for (const key in req.params)] with its [hasOwnProperty]
    test, over the remaining keys. *)
Fixpoint copy_own (reqParams : list (string * value)) (keys : list string)
    (tempParams : list (string * value)) (paramsFound : bool)
    : list (string * value) * bool :=
  match keys with
  | [] => (tempParams, paramsFound)
  | key :: rest =>
      if has_key reqParams key then
        copy_own reqParams rest
          (obj_set tempParams key (prop reqParams key)) true
      else copy_own reqParams rest tempParams paramsFound
  end.

(** [ownPropertyNames.forEach((key) => { ... })] of the fallback. *)
Fixpoint copy_names (reqParams : list (string * value)) (keys : list string)
    (tempParams : list (string * value)) (paramsFound : bool)
    : list (string * value) * bool :=
  match keys with
  | [] => (tempParams, paramsFound)
  | key :: rest =>
      copy_names reqParams rest
        (obj_set tempParams key (prop reqParams key)) true
  end.

(** The construction of [tempParams] from [req.params]: the loop, then the
    fallback when the loop has found nothing. *)
Definition collect_params (reqParams : list (string * value))
    : list (string * value) * bool :=
  let '(tempParams, paramsFound) :=
    copy_own reqParams (Object_keys reqParams) [] false in
  if negb paramsFound then
    let ownPropertyNames := Object_keys reqParams in
    if Nat.ltb 0 (length ownPropertyNames) then
      copy_names reqParams ownPropertyNames tempParams paramsFound
    else (tempParams, paramsFound)
  else (tempParams, paramsFound).

Section Handler.
(** [qs.parse(str, { allowDots, allowPrototypes: false })], a function of
    the library [qs]. *)
Variable qs_parse : string -> option bool -> value.
Variable options : MiddlewareOptions.

(** The block [// Query]. *)
Definition do_query (st : Request * list event) : Request * list event :=
  let req := st.1 in
  if includes (fieldsToSanitize options) query_
     && ToBoolean (VString (url req)) then
    match indexOf (url req) "?" with
    | Some queryStringIndex =>
        let rawQueryString := substring (url req) (queryStringIndex + 1) in
        let parsedQuery := qs_parse rawQueryString (allowDots options) in
        let res := _sanitize parsedQuery (engine_options options) in
        notify options (isSanitized res) query_
          (set_sanitizedQuery req (target res), st.2)
    | None => st
    end
  else st.

(** The block [// Params]. *)
Definition do_params (st : Request * list event) : Request * list event :=
  let req := st.1 in
  match params req with
  | Some reqParams =>
      if includes (fieldsToSanitize options) params_
         && Nat.ltb 0 (length (Object_keys reqParams)) then
        let '(tempParams, paramsFound) := collect_params reqParams in
        if paramsFound then
          let res := _sanitize (VObject tempParams) (engine_options options) in
          notify options (isSanitized res) params_
            (set_sanitizedParams req (target res), st.2)
        else st
      else st
  | None => st
  end.

(** The block [// Body]. *)
Definition do_body (st : Request * list event) : Request * list event :=
  let req := st.1 in
  if includes (fieldsToSanitize options) body_
     && ToBoolean (body req)
     && jstype_eqb (typeof (body req)) TObject then
    let res := _sanitize (body req) (engine_options options) in
    notify options (isSanitized res) body_
      (set_sanitizedBody req (target res), st.2)
  else st.

(** The block [// Headers]. *)
Definition do_headers (st : Request * list event) : Request * list event :=
  let req := st.1 in
  if includes (fieldsToSanitize options) headers_
     && ToBoolean (headers req)
     && jstype_eqb (typeof (headers req)) TObject then
    let res := _sanitize (headers req) (engine_options options) in
    notify options (isSanitized res) headers_
      (set_sanitizedHeaders req (target res), st.2)
  else st.

(** The function returned by [expressSanitize(options)], applied to a
    request: the request when it returns, and the calls it has made. *)
Definition expressSanitize (req : Request) : Request * list event :=
  let req :=
    mkRequest (url req) (params req) (body req) (headers req)
      (initialize (sanitizedBody req)) (initialize (sanitizedQuery req))
      (initialize (sanitizedParams req))
      (initialize (sanitizedHeaders req)) in
  let st := do_query (req, []) in
  let st := do_params st in
  let st := do_body st in
  let st := do_headers st in
  (st.1, st.2 ++ [Next]).
End Handler.

(** The keys for which [onSanitize] has been called, in order. *)
Definition reported (trace : list event) : list field :=
  omap (fun e => match e with OnSanitize _ key => Some key | Next => None end)
    trace.

End Middleware.


(* ================================================================= *)
(** ** Notions used to state the properties of the middleware *)

(** The value the middleware hands to [_sanitize] for a field of the
    request; [None] when it skips the field. *)
Definition handed (qs_parse : string -> option bool -> value)
    (options : Middleware.MiddlewareOptions) (req : Middleware.Request)
    (f : Middleware.field) : option value :=
  let selected :=
    Middleware.includes (Middleware.fieldsToSanitize options) f in
  match f with
  | Middleware.query_ =>
      if selected && ToBoolean (VString (Middleware.url req)) then
        match indexOf (Middleware.url req) "?" with
        | Some i =>
            Some (qs_parse (substring (Middleware.url req) (i + 1))
                    (Middleware.allowDots options))
        | None => None
        end
      else None
  | Middleware.params_ =>
      match Middleware.params req with
      | Some reqParams =>
          if selected && Nat.ltb 0 (length (Object_keys reqParams)) then
            if snd (Middleware.collect_params reqParams) then
              Some (VObject (fst (Middleware.collect_params reqParams)))
            else None
          else None
      | None => None
      end
  | Middleware.body_ =>
      if selected && ToBoolean (Middleware.body req)
         && jstype_eqb (typeof (Middleware.body req)) TObject
      then Some (Middleware.body req) else None
  | Middleware.headers_ =>
      if selected && ToBoolean (Middleware.headers req)
         && jstype_eqb (typeof (Middleware.headers req)) TObject
      then Some (Middleware.headers req) else None
  end.

(** The property [sanitizedBody], [sanitizedParams], [sanitizedQuery] or
    [sanitizedHeaders] that belongs to a field. *)
Definition sanitized_of (req : Middleware.Request) (f : Middleware.field)
    : value :=
  match f with
  | Middleware.body_ => Middleware.sanitizedBody req
  | Middleware.params_ => Middleware.sanitizedParams req
  | Middleware.query_ => Middleware.sanitizedQuery req
  | Middleware.headers_ => Middleware.sanitizedHeaders req
  end.

(** The parts of the request the middleware only reads. *)
Definition inputs (req : Middleware.Request)
    : string * option (list (string * value)) * value * value :=
  (Middleware.url req, Middleware.params req, Middleware.body req,
   Middleware.headers req).

(** What a block of the middleware does to the request and to the calls
    made so far, seen from the value it hands to [_sanitize]; [set] is the
    assignment to the property of the field. *)
Definition block (qs_parse : string -> option bool -> value)
    (options : Middleware.MiddlewareOptions) (f : Middleware.field)
    (set : Middleware.Request -> value -> Middleware.Request)
    (st : Middleware.Request * list Middleware.event)
    : Middleware.Request * list Middleware.event :=
  match handed qs_parse options st.1 f with
  | Some x =>
      let res := _sanitize x (Middleware.engine_options options) in
      let req := set st.1 (target res) in
      (req,
       st.2 ++ (if isSanitized res && Middleware.onSanitize options
                then [Middleware.OnSanitize req f] else []))
  | None => st
  end.

(** The assignment to the property of a field. *)
Definition set_sanitized (f : Middleware.field)
    : Middleware.Request -> value -> Middleware.Request :=
  match f with
  | Middleware.body_ => Middleware.set_sanitizedBody
  | Middleware.params_ => Middleware.set_sanitizedParams
  | Middleware.query_ => Middleware.set_sanitizedQuery
  | Middleware.headers_ => Middleware.set_sanitizedHeaders
  end.

(** [onSanitize] is called for the field: a function is given and the
    engine has set the flag on the value handed to it. *)
Definition reports (qs_parse : string -> option bool -> value)
    (options : Middleware.MiddlewareOptions) (req : Middleware.Request)
    (f : Middleware.field) : bool :=
  Middleware.onSanitize options
  && match handed qs_parse options req f with
     | Some x => isSanitized (_sanitize x (Middleware.engine_options options))
     | None => false
     end.

(* ================================================================= *)
(** ** Induction on values *)

(** Structural induction that provides the hypothesis for every property
    value of a plain object and every element of an array. *)
Lemma value_induction (P : value -> Prop) :
  (forall s, P (VString s)) ->
  (forall n, P (VNumber n)) ->
  (forall b, P (VBoolean b)) ->
  P VNull ->
  P VUndefined ->
  (forall name, P (VFunction name)) ->
  (forall c fields, P (VInstance c fields)) ->
  (forall fields, Forall (fun kv => P (snd kv)) fields -> P (VObject fields)) ->
  (forall items, Forall P items -> P (VArray items)) ->
  forall v, P v.
Proof.
  intros Hs Hn Hb Hnull Hu Hf Hi Ho Ha.
  fix IH 1.
  intros [s|n|b| | |name|c fields|fields|items].
  - apply Hs.
  - apply Hn.
  - apply Hb.
  - exact Hnull.
  - exact Hu.
  - apply Hf.
  - apply Hi.
  - apply Ho. induction fields as [|[k w] fields IHfields]; constructor.
    + apply IH.
    + exact IHfields.
  - apply Ha. induction items as [|w items IHitems]; constructor.
    + apply IH.
    + exact IHitems.
Qed.

(* ================================================================= *)
(** ** Matching and replacing *)

Lemma matches_nil re s : matches re s = [] <-> string_has re s = false.
Proof.
  induction s as [|c s IH]; simpl; [tauto|].
  destruct (re c); simpl; [split; discriminate | exact IH].
Qed.

(** [if (s.match(re))] tests whether some character of [s] is in the class. *)
Lemma truthy_match s re : truthy (String_match s re) = string_has re s.
Proof.
  unfold String_match.
  destruct (matches re s) as [|m ms] eqn:E; simpl.
  - symmetry. now apply matches_nil.
  - destruct (string_has re s) eqn:H; [reflexivity|].
    apply matches_nil in H. congruence.
Qed.

(** The pattern selected by [allowDots] is the class of forbidden
    characters. *)
Lemma charRegex_forbidden a c : charRegex a c = forbidden a c.
Proof.
  unfold charRegex, forbidden, NO_SQL_CHARS_TO_REPLACE,
    DOT_NO_SQL_CHARS_TO_REPLACE.
  destruct a; simpl; [now rewrite orb_false_r | reflexivity].
Qed.

Lemma string_has_ext p q s :
  (forall c, p c = q c) -> string_has p s = string_has q s.
Proof.
  intros H. induction s as [|c s IH]; simpl; [|rewrite H, IH]; reflexivity.
Qed.

Lemma string_has_charRegex a s :
  string_has (charRegex a) s = string_has (forbidden a) s.
Proof. apply string_has_ext, charRegex_forbidden. Qed.

(** A string without a character of the class is left as it is. *)
Lemma replace_from_clean re r before s :
  string_has re s = false -> replace_from re r before s = s.
Proof.
  revert before. induction s as [|c s IH]; intros before H; simpl in *.
  - reflexivity.
  - apply orb_false_iff in H as [Hc Hs]. rewrite Hc. f_equal. now apply IH.
Qed.


(* ================================================================= *)
(** ** The flag *)

Section Flag.
Variables (r : string) (d a : bool).

(** A value that is no container holds a forbidden character only when it
    is a string that does. *)
Lemma tree_has_leaf v :
  is_container v = false ->
  tree_has a v
  = match v with VString s => string_has (forbidden a) s | _ => false end.
Proof.
  unfold is_container. intros Hc.
  destruct v; try reflexivity.
  - unfold Array_isArray in Hc. rewrite orb_false_r in Hc.
    simpl tree_has. now rewrite Hc.
  - discriminate.
Qed.

Lemma for_in_flag rec entries :
  Forall (fun kv => is_container (snd kv) = true ->
    forall hs, snd (rec (snd kv) hs) = flag_after d a hs (snd kv))
  entries ->
  forall newObj hs,
    snd (for_in r d a rec entries newObj hs)
    = hs || (negb d && entries_have a entries).
Proof.
  unfold entries_have.
  induction 1 as [|[key val] entries Hval _ IH]; intros newObj hs; simpl in *.
  - now rewrite andb_false_r, orb_false_r.
  - rewrite truthy_match, string_has_charRegex.
    destruct (is_container val) eqn:Hc; unfold is_container in Hc; rewrite Hc.
    + specialize (Hval eq_refl). unfold flag_after, is_container in Hval.
      rewrite Hc, andb_true_r in Hval.
      destruct (string_has (forbidden a) key); simpl;
        match goal with |- context [rec val ?x] =>
        specialize (Hval x); destruct (rec val x) as [w hs'] end;
        simpl in Hval; subst hs'; rewrite IH;
        destruct d, hs, (tree_has a val); reflexivity.
    + rewrite (tree_has_leaf val) by exact Hc.
      destruct val; rewrite ?truthy_match, ?string_has_charRegex;
        destruct (string_has (forbidden a) key); simpl;
        try destruct (string_has (forbidden a) s); simpl;
        destruct d; simpl; rewrite IH; simpl;
        destruct hs; reflexivity.
Qed.

Lemma map_item_flag rec item :
  (is_container item = true ->
    forall hs, snd (rec item hs) = flag_after d a hs item) ->
  forall hs,
    snd (map_item r d a rec item hs) = hs || (negb d && tree_has a item).
Proof.
  intros Hitem hs. unfold map_item.
  destruct (is_container item) eqn:Hc; unfold is_container in Hc; rewrite Hc.
  - rewrite (Hitem eq_refl). unfold flag_after, is_container.
    now rewrite Hc, andb_true_r.
  - rewrite tree_has_leaf by exact Hc.
    destruct item; simpl;
      rewrite ?andb_false_r, ?orb_false_r; try reflexivity.
    rewrite truthy_match, string_has_charRegex.
    destruct (string_has (forbidden a) s), d, hs; reflexivity.
Qed.

Lemma Array_map_flag rec items :
  Forall (fun v => is_container v = true ->
    forall hs, snd (rec v hs) = flag_after d a hs v) items ->
  forall hs,
    snd (Array_map r d a rec items hs)
    = hs || (negb d && tree_has a (VArray items)).
Proof.
  induction 1 as [|item items Hitem _ IH]; intros hs; simpl in *.
  - now rewrite andb_false_r, orb_false_r.
  - pose proof (map_item_flag rec item Hitem hs) as E.
    destruct (map_item r d a rec item hs) as [w hs'].
    specialize (IH hs').
    destruct (Array_map r d a rec items hs') as [ws hs''].
    simpl in *. subst hs'' hs'.
    destruct hs, d, (tree_has a item); reflexivity.
Qed.

(** The flag after the traversal of [v]: the flag before, or, when the run
    is not a dry run, a forbidden character somewhere in the container. *)
Lemma recursiveSanitize_flag v hs :
  snd (_recursiveSanitize r d a v hs) = flag_after d a hs v.
Proof.
  revert hs.
  induction v as [s|n|b| | |name|c fields|fields IH|items IH]
    using value_induction; intros hs; unfold flag_after;
    try (simpl; rewrite ?andb_false_r, ?orb_false_r; reflexivity).
  - simpl _recursiveSanitize. unfold is_container. simpl tree_has.
    destruct (isPlainObject (VObject fields)) eqn:Hp;
      [|simpl; now rewrite andb_false_r, orb_false_r].
    pose proof (for_in_flag (_recursiveSanitize r d a) fields) as E.
    destruct (for_in _ _ _ _ fields [] hs) as [o hs'] eqn:F.
    apply (f_equal snd) in F. simpl in *. subst hs'.
    rewrite E; [now rewrite andb_true_r|].
    eapply Forall_impl; [exact IH|]. auto.
  - simpl. rewrite ?andb_false_r, ?orb_false_r.
    pose proof (Array_map_flag (_recursiveSanitize r d a) items) as E.
    destruct (Array_map _ _ _ _ items hs) as [o hs'] eqn:F.
    apply (f_equal snd) in F. simpl in *. subst hs'.
    rewrite E; [now rewrite andb_true_r|].
    eapply Forall_impl; [exact IH|]. auto.
Qed.
End Flag.

(* ================================================================= *)
(** ** The traversal as a fold and a map *)

Section Shape.
Variables (r : string) (d a : bool).

Lemma map_item_value rec item :
  (is_container item = true ->
   forall hs, fst (rec item hs) = fst (rec item false)) ->
  forall hs,
    fst (map_item r d a rec item hs) = fst (map_item r d a rec item false).
Proof.
  intros H hs. unfold map_item.
  destruct (is_container item) eqn:Hc; unfold is_container in Hc; rewrite Hc.
  - now apply H.
  - destruct item; try reflexivity.
    destruct (truthy _ && negb d); reflexivity.
Qed.

Lemma for_in_value rec entries :
  Forall (fun kv => is_container (snd kv) = true ->
    forall hs, fst (rec (snd kv) hs) = fst (rec (snd kv) false))
  entries ->
  forall newObj hs,
    fst (for_in r d a rec entries newObj hs)
    = fold_left (fun o kv =>
      obj_set o (newKey_of r a (fst kv))
      (fst (map_item r d a rec (snd kv) false)))
    entries newObj.
Proof.
  induction 1 as [|[key val] entries Hval _ IH]; intros newObj hs; simpl.
  - reflexivity.
  - unfold newKey_of, map_item.
    destruct (truthy (String_match key (charRegex a)));
      (destruct (is_container val) eqn:Hc; unfold is_container in Hc;
        rewrite Hc;
        [ specialize (Hval Hc); simpl in Hval;
          match goal with |- context [rec val ?x] =>
          rewrite <- (Hval x); destruct (rec val x) as [w hs'] end;
          simpl; apply IH
          | destruct val; simpl in Hc; try discriminate; try apply IH;
          destruct (truthy (String_match _ _)), d; simpl; apply IH ]).
Qed.

Lemma Array_map_value rec items :
  Forall (fun v => is_container v = true ->
    forall hs, fst (rec v hs) = fst (rec v false)) items ->
  forall hs,
    fst (Array_map r d a rec items hs)
    = map (fun v => fst (map_item r d a rec v false)) items.
Proof.
  induction 1 as [|item items Hitem _ IH]; intros hs; simpl.
  - reflexivity.
  - rewrite <- (map_item_value rec item Hitem hs).
    destruct (map_item r d a rec item hs) as [w hs'].
    rewrite <- (IH hs').
    destruct (Array_map r d a rec items hs') as [ws hs'']. reflexivity.
Qed.

(** The value built by the traversal does not depend on the flag. *)
Lemma recursiveSanitize_value v hs :
  fst (_recursiveSanitize r d a v hs) = fst (_recursiveSanitize r d a v false).
Proof.
  revert hs.
  induction v as [s|n|b| | |name|c fields|fields IH|items IH]
    using value_induction; intros hs; simpl; try reflexivity.
  - destruct (isPlainObject (VObject fields)); [|reflexivity].
    assert (Forall (fun kv => is_container (snd kv) = true -> forall hs,
          fst (_recursiveSanitize r d a (snd kv) hs)
          = fst (_recursiveSanitize r d a (snd kv) false)) fields) as H
      by (eapply Forall_impl; [exact IH|]; auto).
    pose proof (for_in_value _ _ H [] hs) as E1.
    pose proof (for_in_value _ _ H [] false) as E2.
    destruct (for_in _ _ _ _ fields [] hs), (for_in _ _ _ _ fields [] false).
    simpl in *. congruence.
  - assert (Forall (fun v => is_container v = true -> forall hs,
          fst (_recursiveSanitize r d a v hs)
          = fst (_recursiveSanitize r d a v false)) items) as H
      by (eapply Forall_impl; [exact IH|]; auto).
    pose proof (Array_map_value _ _ H hs) as E1.
    pose proof (Array_map_value _ _ H false) as E2.
    destruct (Array_map _ _ _ _ items hs), (Array_map _ _ _ _ items false).
    simpl in *. congruence.
Qed.

(** The loop over the entries of an object is a left fold of property
    writes; the flag is the one of [recursiveSanitize_flag]. *)
Lemma for_in_fold entries newObj hs :
  for_in r d a (_recursiveSanitize r d a) entries newObj hs
  = (fold_left (store_entry r d a) entries newObj,
    hs || (negb d && entries_have a entries)).
Proof.
  apply injective_projections; simpl.
  - apply for_in_value, Forall_forall. intros kv _ _ hs'.
    apply recursiveSanitize_value.
  - apply for_in_flag, Forall_forall. intros kv _ _ hs'.
    apply recursiveSanitize_flag.
Qed.

(** [Array.map] with the engine's callback maps [child_of] over the
    elements. *)
Lemma Array_map_map items hs :
  Array_map r d a (_recursiveSanitize r d a) items hs
  = (map (child_of r d a) items,
    hs || (negb d && tree_has a (VArray items))).
Proof.
  apply injective_projections; simpl.
  - apply Array_map_value, Forall_forall. intros kv _ _ hs'.
    apply recursiveSanitize_value.
  - apply Array_map_flag, Forall_forall. intros kv _ _ hs'.
    apply recursiveSanitize_flag.
Qed.

Lemma recursiveSanitize_object fields hs :
  isPlainObject (VObject fields) = true ->
  _recursiveSanitize r d a (VObject fields) hs
  = (VObject (fold_left (store_entry r d a) fields []),
    hs || (negb d && tree_has a (VObject fields))).
Proof.
  intros Hp. simpl _recursiveSanitize. simpl tree_has.
  now rewrite Hp, for_in_fold.
Qed.

(** What is neither a plain object nor an array is returned as it is. *)
Lemma recursiveSanitize_other v hs :
  is_container v = false -> _recursiveSanitize r d a v hs = (v, hs).
Proof.
  unfold is_container. intros Hc. destruct v; try reflexivity.
  - unfold Array_isArray in Hc. rewrite orb_false_r in Hc.
    simpl. now rewrite Hc.
  - discriminate.
Qed.

Lemma recursiveSanitize_array items hs :
  _recursiveSanitize r d a (VArray items) hs
  = (VArray (map (child_of r d a) items),
    hs || (negb d && tree_has a (VArray items))).
Proof. simpl _recursiveSanitize. now rewrite Array_map_map. Qed.

(** [child_of] by cases. *)
Lemma child_of_object fields :
  isPlainObject (VObject fields) = true ->
  child_of r d a (VObject fields)
  = VObject (fold_left (store_entry r d a) fields []).
Proof.
  intros Hp. unfold child_of, map_item. rewrite Hp. simpl orb.
  now rewrite recursiveSanitize_object.
Qed.

Lemma child_of_array items :
  child_of r d a (VArray items) = VArray (map (child_of r d a) items).
Proof. unfold child_of, map_item. simpl. now rewrite Array_map_map. Qed.

Lemma child_of_string s :
  child_of r d a (VString s)
  = if string_has (forbidden a) s && negb d
  then VString (String_replace s (charRegex a) r) else VString s.
Proof.
  unfold child_of, map_item. simpl.
  rewrite truthy_match, string_has_charRegex.
  now destruct (string_has _ s && negb d).
Qed.

Lemma child_of_other v :
  is_container v = false -> typeof v <> TString -> child_of r d a v = v.
Proof.
  intros Hc Hs. unfold child_of, map_item. unfold is_container in Hc.
  rewrite Hc. destruct v; try reflexivity. now destruct Hs.
Qed.
End Shape.

(* ================================================================= *)
(** ** The entry point *)

Section EntryPoint.
Variable options : Options.
Let r := opt_replaceWith options.
Let d := opt_flag (dryRun options).
Let a := opt_flag (allowDots options).

(** The value returned: the argument itself in a dry run, otherwise what
    the engine puts in place of a nested value. *)
Lemma sanitize_target v :
  target (_sanitize v options) = if d then v else child_of r false a v.
Proof.
  unfold _sanitize, cloneDeep. fold r d a.
  destruct v; try (simpl; now destruct d).
  - rewrite truthy_match, string_has_charRegex.
    rewrite child_of_string, andb_true_r.
    destruct d; destruct (string_has (forbidden a) s); reflexivity.
  - unfold Array_isArray. rewrite andb_true_r.
    destruct (isPlainObject (VObject fields)) eqn:Hp; simpl negb; cbv iota.
    + rewrite recursiveSanitize_object by exact Hp. simpl.
      destruct d; [reflexivity|]. now rewrite child_of_object.
    + simpl. rewrite child_of_other; [now destruct d| |discriminate].
      unfold is_container. now rewrite Hp.
  - rewrite recursiveSanitize_array. simpl.
    destruct d; [reflexivity|]. now rewrite child_of_array.
Qed.

(** The flag returned: for a string at the root, whether it holds a
    forbidden character; for a container, the same about the whole tree
    but only outside a dry run; [false] for everything else. *)
Lemma sanitize_flag v :
  isSanitized (_sanitize v options)
  = match v with
  | VString s => string_has (forbidden a) s
  | _ => negb d && tree_has a v
  end.
Proof.
  unfold _sanitize, cloneDeep. fold r d a.
  destruct v; try (simpl; rewrite ?andb_false_r; reflexivity).
  - rewrite truthy_match, string_has_charRegex.
    now destruct (string_has (forbidden a) s).
  - unfold Array_isArray. rewrite andb_true_r. simpl tree_has.
    destruct (isPlainObject (VObject fields)) eqn:Hp; simpl negb; cbv iota.
    + rewrite recursiveSanitize_object by exact Hp. simpl tree_has.
      now rewrite Hp.
    + simpl. now rewrite andb_false_r.
  - rewrite recursiveSanitize_array. reflexivity.
Qed.
End EntryPoint.

(** Outside a dry run the flag tells exactly whether a forbidden character
    occurs in a key or a string of the reachable tree. *)
Lemma isSanitized_run v options :
  opt_flag (dryRun options) = false ->
  isSanitized (_sanitize v options)
  = tree_has (opt_flag (allowDots options)) v.
Proof.
  intros Hd. rewrite sanitize_flag, Hd. now destruct v.
Qed.

(** In a dry run the flag of a plain object or an array is never set. *)
Lemma isSanitized_dry_container v options :
  opt_flag (dryRun options) = true ->
  is_container v = true ->
  isSanitized (_sanitize v options) = false.
Proof.
  intros Hd Hc. rewrite sanitize_flag, Hd. now destruct v.
Qed.

(** [has] sees a forbidden character only in a string passed directly. *)
Lemma has_spec v :
  has v = match v with
  | VString s => string_has (forbidden false) s
  | _ => false
  end.
Proof. unfold has. rewrite sanitize_flag. now destruct v. Qed.

(** C1 (fails on the code): the object [{ "$gt": 1 }] has the forbidden
    character [$] in a key, yet [has], that is [_sanitize] with [dryRun: true],
    answers [false]; without [dryRun] the same object is flagged. *)
Theorem has_misses_key_of_object :
  let v := VObject [("$gt", VNumber 1)] in
  tree_has false v = true
  /\ has v = false
  /\ isSanitized (_sanitize v (mkOptions None (Some true) None)) = false
  /\ isSanitized (_sanitize v (mkOptions None (Some false) None)) = true.
Proof. repeat split. Qed.


(* ================================================================= *)
(** ** Literal replacement *)

(** A replacement text without patterns is substituted as it is. *)
Lemma GetSubstitution_literal matched before after r :
  has_pattern r = false -> GetSubstitution matched before after r = r.
Proof.
  induction r as [|c r IH]; intros H; [reflexivity|].
  simpl in H. apply orb_false_iff in H as [Hc Hr].
  specialize (IH Hr). simpl.
  destruct (Ascii.eqb c "$") eqn:Ec; [|now rewrite IH].
  destruct r as [|e r']; [reflexivity|].
  simpl in Hc. repeat (apply orb_false_iff in Hc as [Hc ?]).
  rewrite Hc. repeat match goal with H : Ascii.eqb e _ = false |- _ =>
    rewrite H; clear H end.
  now rewrite IH.
Qed.

Lemma replace_from_literal re r before s :
  has_pattern r = false ->
  replace_from re r before s = replace_literally re r s.
Proof.
  intros Hr. revert before.
  induction s as [|c s IH]; intros before; simpl; [reflexivity|].
  rewrite IH, GetSubstitution_literal by exact Hr. reflexivity.
Qed.

Lemma String_replace_literal re r s :
  has_pattern r = false ->
  String_replace s re r = replace_literally re r s.
Proof. apply replace_from_literal. Qed.

Lemma replace_literally_ext p q r s :
  (forall c, p c = q c) -> replace_literally p r s = replace_literally q r s.
Proof.
  intros H. induction s as [|c s IH]; simpl; [|rewrite H, IH]; reflexivity.
Qed.

Lemma replace_literally_clean p r s :
  string_has p s = false -> replace_literally p r s = s.
Proof.
  induction s as [|c s IH]; simpl; intros H; [reflexivity|].
  apply orb_false_iff in H as [-> Hs]. now rewrite IH.
Qed.

Lemma string_has_app p s t :
  string_has p (s +:+ t) = string_has p s || string_has p t.
Proof.
  induction s as [|c s IH]; simpl; [reflexivity|].
  now rewrite IH, orb_assoc.
Qed.

(** When the replacement text itself is free of the characters replaced, so
    is the result. *)
Lemma replace_literally_removes p r s :
  string_has p r = false -> string_has p (replace_literally p r s) = false.
Proof.
  intros Hr. induction s as [|c s IH]; simpl; [reflexivity|].
  destruct (p c) eqn:Hc; simpl.
  - now rewrite string_has_app, Hr, IH.
  - now rewrite Hc, IH.
Qed.

(** C4 (as stated, fails): with the replacement [$&] the string [a.b] comes
    back as it is, where the literal insertion of the replacement would give
    [a$&b]. *)
Lemma replacement_pattern_is_expanded :
  sanitize (VString "a.b")
  (Some (mkOptions (Some (VString "$&")) (Some false) None))
  <> VString (replace_literally (forbidden false) "$&" "a.b").
Proof. discriminate. Qed.

(** C4 (amended): outside a dry run, the flag returned for a string tells
    whether the string holds a forbidden character; with a replacement text
    that holds none of the patterns [$$], [$&], [$`], [$'], the string comes
    back with every forbidden character, and not only the first, replaced by
    the replacement text as it is; a string without forbidden character comes
    back unchanged with the flag [false]. *)
Theorem string_replaced_literally s options :
  opt_flag (dryRun options) = false ->
  let p := forbidden (opt_flag (allowDots options)) in
  isSanitized (_sanitize (VString s) options) = string_has p s
  /\ (has_pattern (opt_replaceWith options) = false ->
      target (_sanitize (VString s) options)
      = VString (replace_literally p (opt_replaceWith options) s))
  /\ (string_has p s = false ->
      _sanitize (VString s) options = mkResult false (VString s)).
Proof.
  intros Hd p. subst p.
  pose proof (sanitize_flag options (VString s)) as Hf.
  pose proof (sanitize_target options (VString s)) as Ht.
  rewrite Hd, child_of_string, andb_true_r in Ht. cbv iota beta in Hf.
  split; [exact Hf|split].
  - intros Hr. rewrite Ht, String_replace_literal by exact Hr.
    rewrite (replace_literally_ext _ (forbidden (opt_flag (allowDots options))))
      by apply charRegex_forbidden.
    destruct (string_has _ s) eqn:Hs; [reflexivity|].
    now rewrite replace_literally_clean.
  - intros Hs. rewrite Hs in Hf, Ht.
    destruct (_sanitize (VString s) options) as [f v]. simpl in *.
    now subst.
Qed.

Lemma string_replaced_literally_witness :
  let options := mkOptions (Some (VString "$1")) None None in
  let p := forbidden false in
  isSanitized (_sanitize (VString "user.$name") options)
  = string_has p "user.$name"
  /\ (has_pattern "$1" = false ->
      target (_sanitize (VString "user.$name") options)
      = VString (replace_literally p "$1" "user.$name"))
  /\ (string_has p "user.$name" = false ->
      _sanitize (VString "user.$name") options
      = mkResult false (VString "user.$name")).
Proof.
  apply (string_replaced_literally "user.$name"
           (mkOptions (Some (VString "$1")) None None)).
  reflexivity.
Defined.

(* ================================================================= *)
(** ** Property lists *)

Section PropertyLists.
Context {V : Type}.
Implicit Types (obj : list (string * V)) (key : string) (v : V).

Lemma has_key_put_own obj key v k :
  has_key (put_own obj key v) k = has_key obj k || String.eqb key k.
Proof.
  induction obj as [|[k0 w] obj IH]; simpl.
  - now rewrite orb_false_r.
  - destruct (String.eqb k0 key) eqn:E; simpl.
    + apply String.eqb_eq in E as ->.
      destruct (String.eqb key k); simpl; [reflexivity|].
      now rewrite orb_false_r.
    + rewrite IH. now rewrite orb_assoc.
Qed.

Lemma distinct_keys_put_own obj key v :
  distinct_keys obj = true -> distinct_keys (put_own obj key v) = true.
Proof.
  induction obj as [|[k0 w] obj IH]; simpl; [reflexivity|].
  intros H. apply andb_true_iff in H as [Hk Hd].
  destruct (String.eqb k0 key) eqn:E; simpl.
  - now rewrite Hk, Hd.
  - rewrite has_key_put_own, IH by exact Hd.
    apply negb_true_iff in Hk. rewrite Hk. simpl.
    rewrite String.eqb_sym, E. reflexivity.
Qed.

Lemma put_own_new obj key v :
  has_key obj key = false -> put_own obj key v = obj ++ [(key, v)].
Proof.
  induction obj as [|[k0 w] obj IH]; simpl; [reflexivity|].
  intros H. apply orb_false_iff in H as [-> H]. now rewrite IH.
Qed.

Lemma Forall_put_own (P : string * V -> Prop) obj key v :
  Forall P obj -> P (key, v) ->
  (forall k w, P (k, w) -> P (k, v)) ->
  Forall P (put_own obj key v).
Proof.
  intros Ho Hv Hk. induction Ho as [|[k0 w] obj H0 Ho IH]; simpl.
  - now constructor.
  - destruct (String.eqb k0 key); constructor; eauto.
Qed.

Lemma has_key_app obj obj' k :
  has_key (obj ++ obj') k = has_key obj k || has_key obj' k.
Proof.
  induction obj as [|[k0 w] obj IH]; simpl; [reflexivity|].
  now rewrite IH, orb_assoc.
Qed.

Lemma distinct_keys_app obj obj' :
  distinct_keys (obj ++ obj') = true ->
  distinct_keys obj = true /\ distinct_keys obj' = true
  /\ forall k, has_key obj k = true -> has_key obj' k = false.
Proof.
  induction obj as [|[k0 w] obj IH]; simpl.
  - intros H. repeat split; [exact H | discriminate].
  - intros H. apply andb_true_iff in H as [Hk Hd].
    apply negb_true_iff in Hk. rewrite has_key_app in Hk.
    apply orb_false_iff in Hk as [Hk1 Hk2].
    destruct (IH Hd) as (H1 & H2 & H3).
    rewrite Hk1, H1. repeat split; [exact H2|].
    intros k Hkk. apply orb_true_iff in Hkk as [E|Hkk]; [|now apply H3].
    apply String.eqb_eq in E as <-. exact Hk2.
Qed.

Lemma obj_set_proto obj v : obj_set obj proto_name v = obj.
Proof. reflexivity. Qed.

Lemma obj_set_other obj key v :
  String.eqb key proto_name = false -> obj_set obj key v = put_own obj key v.
Proof. unfold obj_set. now intros ->. Qed.


Lemma distinct_keys_obj_set obj key v :
  distinct_keys obj = true -> distinct_keys (obj_set obj key v) = true.
Proof.
  unfold obj_set. destruct (String.eqb key proto_name); [auto|].
  apply distinct_keys_put_own.
Qed.

Lemma obj_set_new obj key v :
  String.eqb key proto_name = false ->
  has_key obj key = false -> obj_set obj key v = obj ++ [(key, v)].
Proof. intros Hp. rewrite obj_set_other by exact Hp. apply put_own_new. Qed.

Lemma Forall_obj_set (P : string * V -> Prop) obj key v :
  Forall P obj -> (String.eqb key proto_name = false -> P (key, v)) ->
  (forall k w, P (k, w) -> P (k, v)) ->
  Forall P (obj_set obj key v).
Proof.
  unfold obj_set. destruct (String.eqb key proto_name); [auto|].
  intros Ho Hv Hk. apply Forall_put_own; auto.
Qed.
End PropertyLists.

(* ================================================================= *)
(** ** Sanitizing twice *)

Section Idempotence.
(** A replacement text without forbidden character and without pattern,
    outside a dry run. *)
Variables (r : string) (a : bool).
Hypothesis r_clean : string_has (forbidden a) r = false.
Hypothesis r_literal : has_pattern r = false.

Lemma newKey_of_clean key :
  string_has (forbidden a) (newKey_of r a key) = false.
Proof.
  unfold newKey_of. rewrite truthy_match, string_has_charRegex.
  destruct (string_has (forbidden a) key) eqn:Hk; [|exact Hk].
  rewrite String_replace_literal by exact r_literal.
  rewrite (replace_literally_ext _ (forbidden a))
    by apply charRegex_forbidden.
  now apply replace_literally_removes.
Qed.

Lemma newKey_of_fixed key :
  string_has (forbidden a) key = false -> newKey_of r a key = key.
Proof.
  intros H. unfold newKey_of.
  now rewrite truthy_match, string_has_charRegex, H.
Qed.

(** The entries of an object the loop has built, or may leave as they
    are. *)
Local Abbreviation entry_stable :=
  (fun kv : string * value =>
     string_has (forbidden a) (fst kv) = false
     /\ String.eqb (fst kv) proto_name = false
     /\ stable a (snd kv) = true).

Lemma stable_entries fields :
  forallb (fun kv => negb (string_has (forbidden a) (fst kv))
                     && negb (String.eqb (fst kv) proto_name)
                     && stable a (snd kv)) fields = true
  <-> Forall entry_stable fields.
Proof.
  rewrite forallb_forall, List.Forall_forall.
  split; intros H kv Hin; specialize (H kv Hin).
  - apply andb_true_iff in H as [H Hs].
    apply andb_true_iff in H as [Hk Hp].
    apply negb_true_iff in Hk, Hp. repeat split; assumption.
  - destruct H as (-> & -> & ->). reflexivity.
Qed.

Lemma stable_object fields :
  distinct_keys fields = true -> Forall entry_stable fields ->
  stable a (VObject fields) = true.
Proof.
  intros Hd Hf. simpl. apply orb_true_iff. right.
  rewrite Hd. now apply stable_entries.
Qed.

Lemma stable_object_inv fields :
  isPlainObject (VObject fields) = true ->
  stable a (VObject fields) = true ->
  distinct_keys fields = true /\ Forall entry_stable fields.
Proof.
  intros Hp H. simpl in H. rewrite Hp in H. simpl in H.
  apply andb_true_iff in H as [Hd H]. split; [exact Hd|].
  now apply stable_entries.
Qed.

Lemma stable_array items :
  Forall (fun v => stable a v = true) items <-> stable a (VArray items) = true.
Proof.
  simpl. rewrite forallb_forall, List.Forall_forall. reflexivity.
Qed.

Lemma fold_store_stable fields :
  Forall (fun kv => stable a (child_of r false a (snd kv)) = true) fields ->
  forall newObj,
    distinct_keys newObj = true -> Forall entry_stable newObj ->
    distinct_keys (fold_left (store_entry r false a) fields newObj) = true
    /\ Forall entry_stable (fold_left (store_entry r false a) fields newObj).
Proof.
  induction 1 as [|[key val] fields Hval _ IH]; intros newObj Hd Hf; simpl.
  - now split.
  - apply IH; unfold store_entry; simpl.
    + now apply distinct_keys_obj_set.
    + apply Forall_obj_set; simpl.
      * exact Hf.
      * intros Hp. repeat split;
          [apply newKey_of_clean | exact Hp | exact Hval].
      * intros k w (Hk & Hp & _). repeat split; assumption.
Qed.

(** What the engine returns is stable. *)
Lemma child_of_stable v : stable a (child_of r false a v) = true.
Proof.
  induction v as [s|n|b| | |name|c fields|fields IH|items IH]
    using value_induction;
    try (rewrite child_of_other by (reflexivity || discriminate);
      reflexivity).
  - rewrite child_of_string, andb_true_r. simpl.
    destruct (string_has (forbidden a) s) eqn:Hs; simpl; [|now rewrite Hs].
    rewrite String_replace_literal by exact r_literal.
    rewrite (replace_literally_ext _ (forbidden a))
      by apply charRegex_forbidden.
    now rewrite replace_literally_removes.
  - destruct (isPlainObject (VObject fields)) eqn:Hp.
    + rewrite child_of_object by exact Hp.
      destruct (fold_store_stable fields IH []) as [Hd Hf];
        [reflexivity | constructor |].
      now apply stable_object.
    + rewrite child_of_other; [|unfold is_container; now rewrite Hp
                               |discriminate].
      simpl. now rewrite Hp.
  - rewrite child_of_array. apply stable_array.
    apply Forall_map. exact IH.
Qed.

Lemma fold_store_fixed fields :
  Forall (fun kv => stable a (snd kv) = true ->
    child_of r false a (snd kv) = snd kv) fields ->
  forall newObj,
    distinct_keys (newObj ++ fields) = true ->
    Forall entry_stable fields ->
    fold_left (store_entry r false a) fields newObj = newObj ++ fields.
Proof.
  induction 1 as [|[key val] fields Hval _ IH]; intros newObj Hd Hf; simpl.
  - now rewrite app_nil_r.
  - inversion Hf as [|? ? (Hk & Hp & Hv) Hf']; subst. simpl in Hk, Hp, Hv.
    pose proof Hd as Hd'.
    apply distinct_keys_app in Hd' as (_ & _ & Hd').
    simpl in Hval. specialize (Hval Hv).
    assert (store_entry r false a newObj (key, val) = obj_set newObj key val)
      as -> by (unfold store_entry; simpl;
        now rewrite newKey_of_fixed, Hval).
    rewrite obj_set_new.
    + rewrite IH.
      * now rewrite <- app_assoc.
      * now rewrite <- app_assoc.
      * exact Hf'.
    + exact Hp.
    + destruct (has_key newObj key) eqn:E; [|reflexivity].
      specialize (Hd' key E). simpl in Hd'.
      now rewrite String.eqb_refl in Hd'.
Qed.

(** On a stable tree the engine changes nothing. *)
Lemma child_of_fixed v : stable a v = true -> child_of r false a v = v.
Proof.
  induction v as [s|n|b| | |name|c fields|fields IH|items IH]
    using value_induction; intros Hv;
    try (now rewrite child_of_other by (reflexivity || discriminate)).
  - rewrite child_of_string. simpl in Hv. apply negb_true_iff in Hv.
    now rewrite Hv.
  - destruct (isPlainObject (VObject fields)) eqn:Hp.
    + rewrite child_of_object by exact Hp.
      apply stable_object_inv in Hv as [Hd Hf]; [|exact Hp].
      now rewrite fold_store_fixed.
    + apply child_of_other; [|discriminate].
      unfold is_container. now rewrite Hp.
  - rewrite child_of_array. f_equal.
    apply stable_array in Hv.
    induction IH as [|v items Hhd _ IHitems]; simpl; [reflexivity|].
    inversion Hv; subst. rewrite Hhd, IHitems; auto.
Qed.

End Idempotence.


(* ================================================================= *)
(** ** The object under construction *)

Section ObjGet.
Context {V : Type}.
Implicit Types (obj : list (string * V)) (key : string) (v : V).

Lemma obj_get_put_own obj key v k :
  obj_get (put_own obj key v) k
  = if String.eqb key k then Some v else obj_get obj k.
Proof.
  induction obj as [|[k0 w] obj IH]; simpl.
  - reflexivity.
  - destruct (String.eqb k0 key) eqn:E; simpl.
    + apply String.eqb_eq in E as ->. now destruct (String.eqb key k).
    + rewrite IH. destruct (String.eqb k0 k) eqn:E0; [|reflexivity].
      apply String.eqb_eq in E0 as ->. now rewrite String.eqb_sym, E.
Qed.


(** A write leaves the other names as they are, and is read back under its
    own name unless that name is [__proto__]. *)
Lemma obj_get_obj_set obj key v k :
  obj_get (obj_set obj key v) k
  = if negb (String.eqb key proto_name) && String.eqb key k then Some v
    else obj_get obj k.
Proof.
  unfold obj_set. destruct (String.eqb key proto_name); [reflexivity|].
  apply obj_get_put_own.
Qed.


Lemma has_key_obj_get obj k :
  has_key obj k = true <-> exists v, obj_get obj k = Some v.
Proof.
  induction obj as [|[k0 w] obj IH]; simpl.
  - split; [discriminate | intros [v H]; discriminate].
  - destruct (String.eqb k0 k); simpl; [|exact IH].
    split; eauto.
Qed.

Lemma obj_get_In obj k v : obj_get obj k = Some v -> In (k, v) obj.
Proof.
  induction obj as [|[k0 w] obj IH]; simpl; [discriminate|].
  destruct (String.eqb k0 k) eqn:E.
  - apply String.eqb_eq in E as ->. intros [= ->]. now left.
  - intros H. right. now apply IH.
Qed.

Lemma In_has_key obj k v : In (k, v) obj -> has_key obj k = true.
Proof.
  induction obj as [|[k0 w] obj IH]; simpl; [tauto|].
  intros [[= -> ->]|H].
  - now rewrite String.eqb_refl.
  - rewrite IH by exact H. apply orb_true_r.
Qed.

End ObjGet.

Section Fold.
Variables (r : string) (d a : bool).
Local Abbreviation sk := (newKey_of r a).
Local Abbreviation child := (child_of r d a).
Local Abbreviation build := (fold_left (store_entry r d a)).

(** Reading the constructed object: the last entry stored under a name
    wins, and earlier contents survive under the other names. *)
Lemma obj_get_build fields newObj k' :
  String.eqb k' proto_name = false ->
  obj_get (build fields newObj) k'
  = match last_entry sk k' fields with
  | Some v => Some (child v)
  | None => obj_get newObj k'
  end.
Proof.
  intros Hp. revert newObj.
  induction fields as [|[k v] fields IH]; intros newObj.
  - reflexivity.
  - simpl. rewrite IH.
    destruct (last_entry sk k' fields); [reflexivity|].
    unfold store_entry. simpl. rewrite obj_get_obj_set.
    destruct (String.eqb (sk k) k') eqn:E; [|now rewrite andb_false_r].
    apply String.eqb_eq in E. rewrite E, Hp. reflexivity.
Qed.


Lemma last_entry_In k' fields v :
  last_entry sk k' fields = Some v ->
  exists k, In (k, v) fields /\ sk k = k'.
Proof.
  induction fields as [|[k w] fields IH]; simpl; [discriminate|].
  destruct (last_entry sk k' fields) as [u|].
  - intros [= ->]. destruct IH as (k0 & Hin & Hk); eauto.
  - destruct (String.eqb (sk k) k') eqn:E; [|discriminate].
    intros [= ->]. apply String.eqb_eq in E. eauto.
Qed.

Lemma last_entry_None k' fields :
  last_entry sk k' fields = None <->
  forall k, has_key fields k = true -> sk k <> k'.
Proof.
  induction fields as [|[k w] fields IH]; simpl.
  - split; [discriminate | reflexivity].
  - destruct (last_entry sk k' fields) as [u|] eqn:E.
    + split; [discriminate|]. intros H.
      apply last_entry_In in E as (k0 & Hin & Hk).
      apply In_has_key in Hin. destruct (H k0); [|exact Hk].
      rewrite Hin. apply orb_true_r.
    + destruct IH as [IH _]. specialize (IH eq_refl).
      destruct (String.eqb (sk k) k') eqn:Ek.
      * split; [discriminate|]. intros H.
        apply String.eqb_eq in Ek. destruct (H k); [|exact Ek].
        now rewrite String.eqb_refl.
      * split; [|reflexivity]. intros _ k0 H.
        apply orb_true_iff in H as [H|H]; [|now apply IH].
        apply String.eqb_eq in H as <-. now apply String.eqb_neq.
Qed.

Lemma has_key_build fields k' :
  String.eqb k' proto_name = false ->
  has_key (build fields []) k' = true
  <-> exists k, has_key fields k = true /\ sk k = k'.
Proof.
  intros Hp.
  rewrite has_key_obj_get. setoid_rewrite obj_get_build; [|exact Hp]. simpl.
  destruct (last_entry sk k' fields) as [v|] eqn:E.
  - split; [intros _|eauto].
    apply last_entry_In in E as (k & Hin & Hk).
    exists k. split; [|exact Hk]. eapply In_has_key; eauto.
  - split; [intros [v H]; discriminate|].
    intros (k & Hk & Hsk). exfalso.
    eapply last_entry_None; eauto.
Qed.


(** When the renamed names are pairwise distinct and new to [newObj], the
    loop appends the renamed entries in order. *)
Lemma build_distinct fields newObj :
  Forall (fun kv => String.eqb (sk (fst kv)) proto_name = false) fields ->
  distinct_keys (newObj ++ map (fun kv => (sk (fst kv), child (snd kv)))
    fields) = true ->
  build fields newObj
  = newObj ++ map (fun kv => (sk (fst kv), child (snd kv))) fields.
Proof.
  intros Hp. revert newObj.
  induction Hp as [|[k v] fields Hk _ IH]; intros newObj H.
  - simpl. now rewrite app_nil_r.
  - simpl in *. unfold store_entry at 2. simpl.
    rewrite obj_set_new.
    + rewrite IH; rewrite <- app_assoc; [reflexivity | exact H].
    + exact Hk.
    + apply distinct_keys_app in H as (_ & _ & H).
      destruct (has_key newObj (sk k)) eqn:E; [|reflexivity].
      specialize (H _ E). simpl in H. now rewrite String.eqb_refl in H.
Qed.


End Fold.

(* ================================================================= *)
(** ** Renamed keys, collisions and shape *)

Lemma sanitize_Some v options :
  sanitize v (Some options) = target (_sanitize v options).
Proof. reflexivity. Qed.

Lemma sanitized_key_run options key :
  opt_flag (dryRun options) = false ->
  sanitized_key options key
  = newKey_of (opt_replaceWith options) (opt_flag (allowDots options)) key.
Proof.
  intros Hd. unfold sanitized_key.
  rewrite sanitize_Some, sanitize_target, Hd, child_of_string, andb_true_r.
  unfold newKey_of. rewrite truthy_match, string_has_charRegex.
  now destruct (string_has _ key).
Qed.

Lemma sanitized_key_dry options key :
  opt_flag (dryRun options) = true -> sanitized_key options key = key.
Proof.
  intros Hd. unfold sanitized_key.
  now rewrite sanitize_Some, sanitize_target, Hd.
Qed.





Section Shape.
Variables (r : string) (a : bool) (sk : string -> string).
Hypothesis sk_spec : forall k, sk k = newKey_of r a k.

Lemma wf_value_object fields :
  wf_value (VObject fields) = true ->
  distinct_keys fields = true
  /\ forall k v, In (k, v) fields -> wf_value v = true.
Proof.
  simpl. intros H. apply andb_true_iff in H as [Hd Hw].
  split; [exact Hd|]. intros k v Hin.
  rewrite forallb_forall in Hw. exact (Hw _ Hin).
Qed.


End Shape.





(* ================================================================= *)
(** ** Trees on which the engine has nothing to do *)

(** A stable tree holds no forbidden character that the engine reaches. *)
Lemma stable_tree_has a v : stable a v = true -> tree_has a v = false.
Proof.
  induction v as [s|n|b| | |name|c fields|fields IH|items IH]
    using value_induction; intros Hs; try reflexivity.
  - simpl in *. now apply negb_true_iff in Hs.
  - simpl tree_has.
    destruct (isPlainObject (VObject fields)) eqn:Hp; [|reflexivity].
    simpl in Hs. rewrite Hp in Hs. simpl in Hs.
    apply andb_true_iff in Hs as [_ Hs].
    rewrite forallb_forall in Hs. simpl.
    apply not_true_is_false. intros H.
    apply existsb_exists in H as (kv & Hin & H).
    specialize (Hs kv Hin).
    apply andb_true_iff in Hs as [Hs Hv].
    apply andb_true_iff in Hs as [Hk _]. apply negb_true_iff in Hk.
    rewrite List.Forall_forall in IH. rewrite Hk, (IH kv Hin Hv) in H.
    discriminate.
  - simpl in *. apply not_true_is_false. intros H.
    apply existsb_exists in H as (x & Hin & H).
    rewrite forallb_forall in Hs. rewrite List.Forall_forall in IH.
    rewrite (IH x Hin (Hs x Hin)) in H. discriminate.
Qed.

(** A tree of objects with distinct names and without property [__proto__]
    in which the engine reaches no forbidden character is stable. *)
Lemma clean_stable a v :
  wf_value v = true -> ordinary v = true -> tree_has a v = false ->
  stable a v = true.
Proof.
  induction v as [s|n|b| | |name|c fields|fields IH|items IH]
    using value_induction; intros Hw Ho Ht; try reflexivity.
  - simpl in *. now rewrite Ht.
  - simpl stable.
    destruct (isPlainObject (VObject fields)) eqn:Hp; [|reflexivity].
    simpl negb. simpl orb.
    simpl in Hw. apply andb_true_iff in Hw as [Hd Hw]. rewrite Hd.
    simpl in Ho. apply andb_true_iff in Ho as [Hnp Ho].
    apply negb_true_iff in Hnp.
    simpl tree_has in Ht. rewrite Hp in Ht. simpl in Ht.
    rewrite forallb_forall in Hw, Ho. simpl.
    apply forallb_forall. intros kv Hin.
    assert (string_has (forbidden a) (fst kv) || tree_has a (snd kv) = false)
      as H.
    { apply not_true_is_false. intros H.
      assert (existsb (fun kv => string_has (forbidden a) (fst kv)
            || tree_has a (snd kv)) fields = true)
        by (apply existsb_exists; eauto).
      congruence. }
    apply orb_false_iff in H as [Hk Hv]. rewrite Hk. simpl.
    rewrite List.Forall_forall in IH.
    rewrite (IH kv Hin (Hw kv Hin) (Ho kv Hin) Hv), andb_true_r.
    apply negb_true_iff. destruct (String.eqb (fst kv) proto_name) eqn:E;
      [|reflexivity].
    apply String.eqb_eq in E. destruct kv as [k w]. simpl in E. subst k.
    apply In_has_key in Hin. congruence.
  - simpl in *. rewrite forallb_forall in Hw, Ho. apply forallb_forall.
    intros x Hin. rewrite List.Forall_forall in IH.
    apply (IH x Hin); auto.
    apply not_true_is_false. intros H.
    assert (existsb (tree_has a) items = true)
      by (apply existsb_exists; eauto).
    congruence.
Qed.

(** A stable tree is returned as it is, with the flag [false], whatever the
    settings. *)
Lemma sanitize_stable v options :
  stable (opt_flag (allowDots options)) v = true ->
  _sanitize v options = mkResult false v.
Proof.
  intros Hv.
  pose proof (sanitize_flag options v) as Hf.
  pose proof (sanitize_target options v) as Ht.
  destruct (_sanitize v options) as [f t]. simpl in Hf, Ht. subst f t.
  f_equal.
  - pose proof (stable_tree_has _ _ Hv) as Hc.
    destruct v; rewrite ?Hc, ?andb_false_r; try reflexivity. exact Hc.
  - destruct (opt_flag (dryRun options)); [reflexivity|].
    now apply child_of_fixed.
Qed.

(* ================================================================= *)
(** ** Dots allowed *)

(** Outside a dry run, with a replacement text without patterns, a string
    comes back with its forbidden characters replaced literally. *)
Lemma sanitize_string_literal s options :
  opt_flag (dryRun options) = false ->
  has_pattern (opt_replaceWith options) = false ->
  target (_sanitize (VString s) options)
  = VString (replace_literally (forbidden (opt_flag (allowDots options)))
    (opt_replaceWith options) s).
Proof.
  intros Hd Hr. rewrite sanitize_target, Hd, child_of_string, andb_true_r.
  rewrite String_replace_literal by exact Hr.
  rewrite (replace_literally_ext _ (forbidden (opt_flag (allowDots options))))
    by apply charRegex_forbidden.
  destruct (string_has _ s) eqn:Hs; [reflexivity|].
  now rewrite replace_literally_clean.
Qed.

Lemma In_put_own {V} (obj : list (string * V)) key v x :
  In x (put_own obj key v) -> x = (key, v) \/ In x obj.
Proof.
  induction obj as [|[k0 w] obj IH]; simpl.
  - intros [<-|[]]. now left.
  - destruct (String.eqb k0 key) eqn:E.
    + apply String.eqb_eq in E as ->. intros [<-|H]; auto.
    + intros [<-|H]; [auto|]. destruct (IH H); auto.
Qed.

Lemma In_obj_set {V} (obj : list (string * V)) key v x :
  In x (obj_set obj key v) -> x = (key, v) \/ In x obj.
Proof.
  unfold obj_set. destruct (String.eqb key proto_name); [auto|].
  apply In_put_own.
Qed.

(** Every entry of the object that the loop builds is the image of an entry
    of the object it runs over. *)
Lemma In_build r d a fields : forall newObj x,
  In x (fold_left (store_entry r d a) fields newObj) ->
  In x newObj
  \/ exists kv, In kv fields
                /\ x = (newKey_of r a (fst kv), child_of r d a (snd kv)).
Proof.
  induction fields as [|kv fields IH]; intros newObj x; simpl; [auto|].
  intros H. apply IH in H as [H|(kv' & Hin & E)]; [|eauto].
  unfold store_entry in H. apply In_obj_set in H as [->|H]; eauto.
Qed.

Section Rewriting.
Variables (r : string) (a : bool) (sk : string -> string).
Hypothesis sk_spec : forall k, sk k = newKey_of r a k.

(** Outside a dry run the engine rewrites by [newKey_of] the strings and
    names it reaches, and nothing else. *)
Lemma child_rewritten v : rewritten sk v (child_of r false a v).
Proof.
  induction v as [s|n|b| | |name|c fields|fields IH|items IH]
    using value_induction;
    try (rewrite child_of_other by (reflexivity || discriminate);
      apply rewritten_other; [reflexivity | discriminate]).
  - rewrite child_of_string, andb_true_r.
    replace (if string_has (forbidden a) s
             then VString (String_replace s (charRegex a) r) else VString s)
      with (VString (sk s)); [constructor|].
    rewrite sk_spec. unfold newKey_of.
    rewrite truthy_match, string_has_charRegex.
    now destruct (string_has (forbidden a) s).
  - destruct (isPlainObject (VObject fields)) eqn:Hp;
      [|rewrite child_of_other;
        [apply rewritten_other; [|discriminate]| |discriminate];
        unfold is_container; now rewrite Hp].
    rewrite child_of_object by exact Hp.
    apply rewritten_object; [exact Hp| |].
    + intros k' w Hin. apply In_build in Hin as [[]|([k v] & Hin & E)].
      injection E as -> ->. exists k, v. simpl.
      split; [exact Hin|]. split; [apply sk_spec|].
      rewrite List.Forall_forall in IH. exact (IH _ Hin).
    + intros k Hk Hne. rewrite sk_spec in *.
      apply has_key_build; [now apply String.eqb_neq | eauto].
  - rewrite child_of_array. apply rewritten_array.
    induction IH as [|v items Hv _ IHitems]; simpl; constructor; auto.
Qed.
End Rewriting.

(** Rewriting by the identity changes nothing. *)
Lemma rewritten_refl sk v : (forall k, sk k = k) -> rewritten sk v v.
Proof.
  intros Hsk.
  induction v as [s|n|b| | |name|c fields|fields IH|items IH]
    using value_induction;
    try (apply rewritten_other; [reflexivity | discriminate]).
  - rewrite <- (Hsk s) at 2. constructor.
  - destruct (isPlainObject (VObject fields)) eqn:Hp;
      [|apply rewritten_other; [|discriminate];
        unfold is_container; now rewrite Hp].
    apply rewritten_object; [exact Hp| |].
    + intros k' w Hin. exists k', w. repeat split; [exact Hin | apply Hsk|].
      rewrite List.Forall_forall in IH. exact (IH _ Hin).
    + intros k Hk _. now rewrite Hsk.
  - apply rewritten_array. induction IH; constructor; auto.
Qed.

(** C8: with [allowDots] the pattern used matches [$] only, without it [$]
    and [.].  For every tree without property [__proto__], the value
    returned is the tree with every string and every property name that the
    engine reaches replaced by what [sanitize] returns for it, and nothing
    else changed; outside a dry run and with a replacement text without
    patterns, that is the string with exactly its [$] characters replaced
    when dots are allowed, and with exactly its [$] and [.] characters
    replaced when they are not.  With [allowDots], a tree of objects with
    distinct names in which the engine reaches no [$] is returned as it is
    with the flag [false], dots or not.  The examples of the specification
    evaluate as given. *)
Theorem allowDots_spares_dots v options :
  ordinary v = true ->
  rewritten (sanitized_key options) v (sanitize v (Some options))
  /\ (opt_flag (dryRun options) = false ->
      has_pattern (opt_replaceWith options) = false ->
      forall s,
        sanitized_key options s
        = replace_literally
            (fun c => if opt_flag (allowDots options) then Ascii.eqb c "$"
                      else Ascii.eqb c "$" || Ascii.eqb c ".")
            (opt_replaceWith options) s)
  /\ (opt_flag (allowDots options) = true ->
      wf_value v = true -> tree_has true v = false ->
      _sanitize v options = mkResult false v)
  /\ (forall c, charRegex true c = Ascii.eqb c "$")
  /\ (forall c, charRegex false c = Ascii.eqb c "$" || Ascii.eqb c ".")
  /\ sanitize (VString "a.b") (Some (mkOptions None None (Some true)))
  = VString "a.b"
  /\ sanitize (VObject [("a", VObject [("$gt", VNumber 3)])])
  (Some (mkOptions None None (Some true)))
  = VObject [("a", VObject [("_gt", VNumber 3)])]
  /\ sanitize (VString "a.b") (Some (mkOptions None None (Some false)))
  = VString "a_b".
Proof.
  intros Ho. repeat split.
  - rewrite sanitize_Some, sanitize_target.
    destruct (opt_flag (dryRun options)) eqn:Hd.
    + apply rewritten_refl. intros k. now apply sanitized_key_dry.
    + apply child_rewritten. intros k. now apply sanitized_key_run.
  - intros Hd Hr s. unfold sanitized_key.
    rewrite sanitize_Some, sanitize_string_literal by assumption.
    apply replace_literally_ext. intros c.
    unfold forbidden. destruct (opt_flag (allowDots options)); simpl;
      [apply orb_false_r | reflexivity].
  - intros Ha Hw Ht. apply sanitize_stable. rewrite Ha.
    now apply clean_stable.
Qed.

Lemma allowDots_spares_dots_witness :
  let v := VObject [("$a.b", VArray [VString "x.$y"; VNumber 1])] in
  let options := mkOptions None None (Some true) in
  sanitize v (Some options)
  = VObject [("_a.b", VArray [VString "x._y"; VNumber 1])]
  /\ rewritten (sanitized_key options) v (sanitize v (Some options)).
Proof.
  split; [reflexivity|].
  apply (allowDots_spares_dots
      (VObject [("$a.b", VArray [VString "x.$y"; VNumber 1])])
      (mkOptions None None (Some true))).
  reflexivity.
Defined.

(* ================================================================= *)
(** ** Opaque values *)










(* ================================================================= *)
(** ** The replacement text is not scanned *)

(** C10: with the replacement [$] the string [a.b] is turned into [a$b], on
    which [has] answers [true], and the object [{ "a.b": 1 }] into one whose
    key holds [$]; and there is a policy whose replacement text holds a
    forbidden character under which sanitizing a result once more changes
    it. *)
Theorem replacement_not_rescanned :
  let dollar := mkOptions (Some (VString "$")) None None in
  (exists v, has (sanitize v (Some dollar)) = true)
  /\ tree_has false (sanitize (VObject [("a.b", VNumber 1)]) (Some dollar))
  = true
  /\ exists options v,
  options <> default_options
  /\ string_has (forbidden (opt_flag (allowDots options)))
  (opt_replaceWith options) = true
  /\ sanitize (sanitize v (Some options)) (Some options)
  <> sanitize v (Some options).
Proof.
  split; [|split].
  - exists (VString "a.b"). reflexivity.
  - reflexivity.
  - exists (mkOptions (Some (VString "$x")) None None), (VString "a.b").
    repeat split; discriminate.
Qed.
(* ================================================================= *)
(** ** The store view: what a run may touch *)

Module StoreFacts.

Lemma mapM_impl {A B} (f g : A -> option B) l k :
  (forall x y, f x = Some y -> g x = Some y) ->
  mapM f l = Some k -> mapM g l = Some k.
Proof.
  intros H Hm. apply mapM_Some. apply mapM_Some in Hm.
  eapply Forall2_impl; [exact Hm|]. exact H.
Qed.

Lemma read_field_impl (rd rd' : Store.hvalue -> option value) kv t :
  (forall v w, rd v = Some w -> rd' v = Some w) ->
  Store.read_field rd kv = Some t -> Store.read_field rd' kv = Some t.
Proof.
  unfold Store.read_field. intros H E.
  destruct (rd kv.2) as [u|] eqn:Eu; [|discriminate].
  now rewrite (H _ _ Eu).
Qed.

(** One level of [Store.read]. *)
Lemma read_ref n (h : Store.heap) l :
  Store.read (S n) h (Store.HRef l)
  = match h !! l with
  | Some (Store.CObject fields) =>
  VObject <$> mapM (Store.read_field (Store.read n h)) fields
  | Some (Store.CInstance c fields) =>
  VInstance c <$> mapM (Store.read_field (Store.read n h)) fields
  | Some (Store.CArray items) => VArray <$> mapM (Store.read n h) items
  | None => None
  end.
Proof. reflexivity. Qed.

Lemma read_cell_impl (rd rd' : Store.hvalue -> option value)
    (c : option Store.cell) t :
  (forall v w, rd v = Some w -> rd' v = Some w) ->
  match c with
  | Some (Store.CObject fields) => VObject <$> mapM (Store.read_field rd) fields
  | Some (Store.CInstance c fields) =>
      VInstance c <$> mapM (Store.read_field rd) fields
  | Some (Store.CArray items) => VArray <$> mapM rd items
  | None => None
  end = Some t ->
  match c with
  | Some (Store.CObject fields) =>
      VObject <$> mapM (Store.read_field rd') fields
  | Some (Store.CInstance c fields) =>
      VInstance c <$> mapM (Store.read_field rd') fields
  | Some (Store.CArray items) => VArray <$> mapM rd' items
  | None => None
  end = Some t.
Proof.
  intros H. destruct c as [[fields|ctor fields|items]|]; [| | |discriminate];
    intros E; apply fmap_Some in E as (ts & E & ->); apply fmap_Some;
    exists ts; (split; [|reflexivity]); revert E; apply mapM_impl; auto;
    intros kv u; now apply read_field_impl.
Qed.

(** Reading survives the growth of the heap. *)
Lemma read_weaken n : forall (h h' : Store.heap) v t,
  h ⊆ h' -> Store.read n h v = Some t -> Store.read n h' v = Some t.
Proof.
  induction n as [|n IH]; intros h h' v t Hsub; destruct v;
    try (simpl; auto; fail).
  rewrite !read_ref.
  destruct (h !! l) as [c|] eqn:El; [|discriminate].
  rewrite (lookup_weaken _ _ _ _ El Hsub).
  apply (read_cell_impl _ _ (Some c)). eauto.
Qed.


(** *** Frame: cells present before a run are not changed by it *)

Section CloneFrame.
Variable rec : Store.hvalue -> Store.heap -> option (Store.hvalue * Store.heap).
Hypothesis rec_frame :
  forall v (h : Store.heap) v' h', rec v h = Some (v', h') -> h ⊆ h'.

Lemma clone_fields_frame fields : forall (h : Store.heap) fields' h',
  Store.clone_fields rec fields h = Some (fields', h') -> h ⊆ h'.
Proof.
  induction fields as [|[k v] fields IH]; intros h fields' h'; simpl.
  - now intros [= _ <-].
  - destruct (rec v h) as [[v1 h1]|] eqn:E1; simpl; [|discriminate].
    destruct (Store.clone_fields rec fields h1) as [[fs2 h2]|] eqn:E2; simpl;
      [|discriminate].
    intros [= _ <-].
    etransitivity; [eapply rec_frame; exact E1 | eapply IH; exact E2].
Qed.

Lemma clone_items_frame items : forall (h : Store.heap) items' h',
  Store.clone_items rec items h = Some (items', h') -> h ⊆ h'.
Proof.
  induction items as [|v items IH]; intros h items' h'; simpl.
  - now intros [= _ <-].
  - destruct (rec v h) as [[v1 h1]|] eqn:E1; simpl; [|discriminate].
    destruct (Store.clone_items rec items h1) as [[fs2 h2]|] eqn:E2; simpl;
      [|discriminate].
    intros [= _ <-].
    etransitivity; [eapply rec_frame; exact E1 | eapply IH; exact E2].
Qed.
End CloneFrame.

(** [Store.cloneDeep] only adds cells. *)
Lemma cloneDeep_frame fuel : forall v (h : Store.heap) v' h',
  Store.cloneDeep fuel v h = Some (v', h') -> h ⊆ h'.
Proof.
  induction fuel as [|fuel IH]; intros v h v' h'; destruct v; simpl;
    try (now intros [= _ <-]); try discriminate.
  destruct (h !! l) as [[fields|ctor fields|items]|]; [| | |discriminate].
  - destruct (Store.clone_fields _ fields h) as [[fs1 h1]|] eqn:E; simpl;
      [|discriminate].
    intros [= _ <-]. etransitivity.
    + eapply clone_fields_frame; [exact IH | exact E].
    + apply insert_subseteq, not_elem_of_dom, is_fresh.
  - destruct (Store.clone_fields _ fields h) as [[fs1 h1]|] eqn:E; simpl;
      [|discriminate].
    intros [= _ <-]. etransitivity.
    + eapply clone_fields_frame; [exact IH | exact E].
    + apply insert_subseteq, not_elem_of_dom, is_fresh.
  - destruct (Store.clone_items _ items h) as [[fs1 h1]|] eqn:E; simpl;
      [|discriminate].
    intros [= _ <-]. etransitivity.
    + eapply clone_items_frame; [exact IH | exact E].
    + apply insert_subseteq, not_elem_of_dom, is_fresh.
Qed.

Lemma set_prop_other (h : Store.heap) newObj key v l :
  l <> newObj -> Store.set_prop h newObj key v !! l = h !! l.
Proof.
  intros Hl. unfold Store.set_prop.
  destruct (h !! newObj) as [[fields|ctor fields|items]|]; try reflexivity.
  now apply lookup_insert_ne.
Qed.

(** A heap that was extended before [newObj] was allocated stays extended
    when [newObj] is written. *)
Lemma set_prop_frame (h0 h : Store.heap) newObj key v :
  h0 !! newObj = None -> h0 ⊆ h -> h0 ⊆ Store.set_prop h newObj key v.
Proof.
  intros Hn Hsub. apply map_subseteq_spec. intros l c Hl.
  rewrite set_prop_other by congruence.
  eapply lookup_weaken; eauto.
Qed.

Section EngineFrame.
Variables (r : string) (d a : bool).
Variable rec :
  Store.hvalue -> Store.heap -> bool ->
  option (Store.hvalue * Store.heap * bool).
Hypothesis rec_frame :
  forall v (h : Store.heap) hs v' h' hs',
    rec v h hs = Some (v', h', hs') -> h ⊆ h'.

Lemma for_in_frame (h0 : Store.heap) current newObj keys :
  h0 !! newObj = None ->
  forall (h : Store.heap) hs h' hs',
    h0 ⊆ h ->
    Store.for_in r d a rec current newObj keys h hs = Some (h', hs') ->
    h0 ⊆ h'.
Proof.
  intros Hn. induction keys as [|key keys IH]; intros h hs h' hs' Hsub; simpl.
  - now intros [= <- _].
  - destruct (Store.get_prop h current key) as [val|]; [|now apply IH].
    destruct (if truthy _ then _ else _) as [newKey hs1].
    destruct (_ || _).
    + destruct (rec val h hs1) as [[[v1 h1] hs2]|] eqn:E; simpl;
        [|discriminate].
      apply IH. apply set_prop_frame; [exact Hn|].
      etransitivity; [exact Hsub | eapply rec_frame; exact E].
    + destruct val; try (apply IH; now apply set_prop_frame).
      destruct (truthy _); [destruct (negb d)|];
        apply IH; now apply set_prop_frame.
Qed.

Lemma map_item_frame item (h : Store.heap) hs v' h' hs' :
  Store.map_item r d a rec item h hs = Some (v', h', hs') -> h ⊆ h'.
Proof.
  unfold Store.map_item. destruct (_ || _); [apply rec_frame|].
  destruct item; try (now intros [= _ <- _]).
  destruct (_ && _); now intros [= _ <- _].
Qed.

Lemma Array_map_frame items : forall (h : Store.heap) hs rs h' hs',
  Store.Array_map r d a rec items h hs = Some (rs, h', hs') -> h ⊆ h'.
Proof.
  induction items as [|item items IH]; intros h hs rs h' hs'; simpl.
  - now intros [= _ <- _].
  - destruct (Store.map_item r d a rec item h hs) as [[[v1 h1] hs1]|] eqn:E1;
      simpl; [|discriminate].
    destruct (Store.Array_map r d a rec items h1 hs1)
      as [[[v2 h2] hs2]|] eqn:E2;
      simpl; [|discriminate].
    intros [= _ <- _].
    etransitivity; [eapply map_item_frame; exact E1 | eapply IH; exact E2].
Qed.
End EngineFrame.

(** The traversal only adds cells: it writes to the objects and arrays it
    has created itself. *)
Lemma recursiveSanitize_frame r d a fuel :
  forall v (h : Store.heap) hs v' h' hs',
  Store._recursiveSanitize r d a fuel v h hs = Some (v', h', hs') -> h ⊆ h'.
Proof.
  induction fuel as [|fuel IH]; intros v h hs v' h' hs'; destruct v; simpl;
    try (now intros [= _ <- _]);
    (destruct (h !! l) as [[fields|ctor fields|items]|] eqn:El;
      try (now intros [= _ <- _]); try discriminate);
    try (destruct (match obj_get fields "constructor" with
                   | Some c => _ | None => _ end);
         try (now intros [= _ <- _]); try discriminate).
  - destruct (Store.for_in _ _ _ _ _ _ _ _ _) as [[h1 hs1]|] eqn:E; simpl;
      [|discriminate].
    intros [= _ <- _].
    eapply for_in_frame; [exact IH| |apply insert_subseteq|exact E];
      apply not_elem_of_dom, is_fresh.
  - destruct (Store.Array_map _ _ _ _ _ _ _) as [[[rs h1] hs1]|] eqn:E; simpl;
      [|discriminate].
    intros [= _ <- _]. etransitivity.
    + eapply Array_map_frame; [exact IH | exact E].
    + apply insert_subseteq, not_elem_of_dom, is_fresh.
Qed.

(** [_sanitize] only adds cells. *)
Lemma sanitize_frame fuel obj options (h : Store.heap) res h' :
  Store._sanitize fuel obj options h = Some (res, h') -> h ⊆ h'.
Proof.
  unfold Store._sanitize.
  destruct obj;
    try (destruct (truthy _); now intros [= _ <-]);
    try (simpl; now intros [= _ <-]).
  destruct (_ && _); [now intros [= _ <-]|].
  destruct (Store.cloneDeep fuel (Store.HRef l) h) as [[t h1]|] eqn:E1; simpl;
    [|discriminate].
  destruct (Store._recursiveSanitize _ _ _ fuel t h1 false)
    as [[[st h2] hs2]|] eqn:E2; simpl; [|discriminate].
  intros [= _ <-]. etransitivity.
  - eapply cloneDeep_frame; eauto.
  - eapply recursiveSanitize_frame; eauto.
Qed.


(** *** The copy made by [Store.cloneDeep] *)

Section CloneRead.
Variable n : nat.
Variable rec : Store.hvalue -> Store.heap -> option (Store.hvalue * Store.heap).
Hypothesis rec_read :
  forall v (h : Store.heap) t,
    Store.read n h v = Some t ->
    exists v' h',
      rec v h = Some (v', h') /\ h ⊆ h' /\ Store.read n h' v' = Some t.

Lemma clone_fields_read fields ts :
  forall h : Store.heap,
    Forall2 (fun kv t => Store.read_field (Store.read n h) kv = Some t)
      fields ts ->
    exists fields' h',
      Store.clone_fields rec fields h = Some (fields', h') /\ h ⊆ h'
      /\ Forall2 (fun kv t => Store.read_field (Store.read n h') kv = Some t)
           fields' ts.
Proof.
  revert ts. induction fields as [|[k v] fields IH]; intros ts h Hf;
    inversion Hf as [|? t ? ts' Hhd Htl]; subst; simpl.
  - exists [], h. repeat split; [reflexivity | constructor].
  - unfold Store.read_field in Hhd. simpl in Hhd.
    destruct (Store.read n h v) as [tv|] eqn:Ev; [|discriminate].
    injection Hhd as <-.
    destruct (rec_read v h tv Ev) as (v1 & h1 & -> & Hsub1 & Hr1). simpl.
    destruct (IH ts' h1) as (fs2 & h2 & -> & Hsub2 & Hr2).
    { eapply Forall2_impl; [exact Htl|]. intros kv t.
      apply read_field_impl. intros u w. now apply read_weaken. }
    simpl. exists ((k, v1) :: fs2), h2. repeat split.
    + etransitivity; eauto.
    + constructor; [|exact Hr2]. unfold Store.read_field. simpl.
      now rewrite (read_weaken _ _ _ _ _ Hsub2 Hr1).
Qed.

Lemma clone_items_read items ts :
  forall h : Store.heap,
    Forall2 (fun v t => Store.read n h v = Some t) items ts ->
    exists items' h',
      Store.clone_items rec items h = Some (items', h') /\ h ⊆ h'
      /\ Forall2 (fun v t => Store.read n h' v = Some t) items' ts.
Proof.
  revert ts. induction items as [|v items IH]; intros ts h Hf;
    inversion Hf as [|? t ? ts' Hhd Htl]; subst; simpl.
  - exists [], h. repeat split; [reflexivity | constructor].
  - destruct (rec_read v h t Hhd) as (v1 & h1 & -> & Hsub1 & Hr1). simpl.
    destruct (IH ts' h1) as (fs2 & h2 & -> & Hsub2 & Hr2).
    { eapply Forall2_impl; [exact Htl|]. intros u w. now apply read_weaken. }
    simpl. exists (v1 :: fs2), h2. repeat split.
    + etransitivity; eauto.
    + constructor; [|exact Hr2]. now apply (read_weaken _ _ _ _ _ Hsub2).
Qed.
End CloneRead.

Lemma read_alloc n (h : Store.heap) c t :
  match Some c with
  | Some (Store.CObject fields) =>
      VObject <$> mapM (Store.read_field (Store.read n h)) fields
  | Some (Store.CInstance c fields) =>
  VInstance c <$> mapM (Store.read_field (Store.read n h)) fields
  | Some (Store.CArray items) => VArray <$> mapM (Store.read n h) items
  | None => None
  end = Some t ->
  Store.read (S n) (<[fresh (dom h) := c]> h) (Store.HRef (fresh (dom h)))
  = Some t.
Proof.
  intros H. rewrite read_ref, lookup_insert_eq.
  revert H. apply (read_cell_impl _ _ (Some c)).
  intros v w. apply read_weaken.
  apply insert_subseteq, not_elem_of_dom, is_fresh.
Qed.

(** [Store.cloneDeep] returns a value that stands for the same tree, in a heap
    that still holds every cell it held. *)
Lemma cloneDeep_read n : forall v (h : Store.heap) t,
  Store.read n h v = Some t ->
  exists v' h',
    Store.cloneDeep n v h = Some (v', h') /\ h ⊆ h'
    /\ Store.read n h' v' = Some t.
Proof.
  induction n as [|n IH]; intros v h t; destruct v;
    try (intros H; eexists _, h; repeat split; [reflexivity | exact H]);
    try discriminate.
  rewrite read_ref. simpl Store.cloneDeep.
  destruct (h !! l) as [[fields|ctor fields|items]|]; [| | |discriminate];
    intros H; apply fmap_Some in H as (ts & H & ->); apply mapM_Some in H.
  - destruct (clone_fields_read n _ IH fields ts h H)
      as (fs1 & h1 & -> & Hsub & Hr). simpl.
    eexists _, _. repeat split.
    + etransitivity; [exact Hsub|].
      apply insert_subseteq, not_elem_of_dom, is_fresh.
    + apply read_alloc. apply fmap_Some. exists ts. split; [|reflexivity].
      now apply mapM_Some.
  - destruct (clone_fields_read n _ IH fields ts h H)
      as (fs1 & h1 & -> & Hsub & Hr). simpl.
    eexists _, _. repeat split.
    + etransitivity; [exact Hsub|].
      apply insert_subseteq, not_elem_of_dom, is_fresh.
    + apply read_alloc. apply fmap_Some. exists ts. split; [|reflexivity].
      now apply mapM_Some.
  - destruct (clone_items_read n _ IH items ts h H)
      as (fs1 & h1 & -> & Hsub & Hr). simpl.
    eexists _, _. repeat split.
    + etransitivity; [exact Hsub|].
      apply insert_subseteq, not_elem_of_dom, is_fresh.
    + apply read_alloc. apply fmap_Some. exists ts. split; [|reflexivity].
      now apply mapM_Some.
Qed.


(** *** Parts of the heap *)

Lemma without_lookup X (h : Store.heap) l c :
  Store.without X h !! l = Some c <-> h !! l = Some c /\ l ∉ X.
Proof. unfold Store.without. now rewrite map_lookup_filter_Some. Qed.

Lemma without_sub X (h : Store.heap) : Store.without X h ⊆ h.
Proof. apply map_filter_subseteq. Qed.

Lemma without_mono X (h h' : Store.heap) :
  h ⊆ h' -> Store.without X h ⊆ Store.without X h'.
Proof. apply map_filter_subseteq_mono. Qed.

Lemma without_empty (h : Store.heap) : h ⊆ Store.without ∅ h.
Proof.
  apply map_subseteq_spec. intros l c H. apply without_lookup.
  split; [exact H | apply not_elem_of_empty].
Qed.

Lemma without_more X Y (h : Store.heap) :
  Store.without (X ∪ Y) h ⊆ Store.without X h.
Proof.
  apply map_subseteq_spec. intros l c H. apply without_lookup in H as [H Hl].
  apply without_lookup. split; [exact H|].
  apply not_elem_of_union in Hl. tauto.
Qed.

(** A newly allocated cell can be left out of a part that did not hold it. *)
Lemma without_alloc X (h : Store.heap) lo c :
  h !! lo = None ->
  Store.without X h ⊆ Store.without (X ∪ {[lo]}) (<[lo := c]> h).
Proof.
  intros Hlo. apply map_subseteq_spec. intros l c' H.
  apply without_lookup in H as [H Hl]. apply without_lookup.
  assert (l <> lo) by congruence.
  split; [now rewrite lookup_insert_ne|].
  rewrite not_elem_of_union, not_elem_of_singleton. auto.
Qed.

Lemma set_prop_lookup (h : Store.heap) newObj fields key v :
  h !! newObj = Some (Store.CObject fields) ->
  Store.set_prop h newObj key v !! newObj
  = Some (Store.CObject (obj_set fields key v)).
Proof. intros H. unfold Store.set_prop. rewrite H. apply lookup_insert_eq. Qed.

(** A write to a cell that is left out does not change the part. *)
Lemma without_set_prop X (h : Store.heap) lo key v :
  lo ∈ X -> Store.without X (Store.set_prop h lo key v) = Store.without X h.
Proof.
  intros Hlo. apply map_eq. intros l. apply option_eq. intros c.
  rewrite !without_lookup. destruct (decide (l = lo)) as [->|Hne].
  - tauto.
  - now rewrite set_prop_other.
Qed.

Lemma set_prop_is_Some (h : Store.heap) lo key v l :
  is_Some (h !! l) -> is_Some (Store.set_prop h lo key v !! l).
Proof.
  intros H. destruct (decide (l = lo)) as [->|Hne].
  - unfold Store.set_prop.
    destruct (h !! lo) as [[fields|ctor fields|items]|] eqn:E;
      rewrite ?lookup_insert_eq, ?E; eauto.
  - now rewrite set_prop_other.
Qed.

(** *** Stored values and the trees they stand for *)

Lemma read_string_inv n (h : Store.heap) v s :
  Store.read n h v = Some (VString s) -> v = Store.HString s.
Proof.
  destruct n, v; simpl; intros H; try discriminate;
    try (injection H as ->; reflexivity).
  destruct (h !! l) as [[fields|ctor fields|items]|]; try discriminate;
    apply fmap_Some in H as (ts & _ & [=]).
Qed.

Lemma read_field_key (rd : Store.hvalue -> option value) kv tkv :
  Store.read_field rd kv = Some tkv -> tkv.1 = kv.1 /\ rd kv.2 = Some tkv.2.
Proof.
  unfold Store.read_field. destruct (rd kv.2); simpl; [|discriminate].
  intros [= <-]. auto.
Qed.

(** Reading a property of the tree is reading the stored property and then
    the tree it stands for. *)
Lemma obj_get_read (rd : Store.hvalue -> option value) fields ts k :
  Forall2 (fun kv tkv => Store.read_field rd kv = Some tkv) fields ts ->
  obj_get ts k = obj_get fields k ≫= rd.
Proof.
  induction 1 as [|[k0 w] [k1 t] fields ts Hhd _ IH]; simpl; [reflexivity|].
  apply read_field_key in Hhd as [Hk Hv]. simpl in Hk, Hv. subst k1.
  destruct (String.eqb k0 k); [simpl; now rewrite Hv | exact IH].
Qed.

Lemma read_Object_function n (h : Store.heap) v t :
  Store.read n h v = Some t ->
  Store.is_Object_function v = is_Object_function t.
Proof.
  destruct n, v; simpl; try (intros [= <-]; reflexivity); try discriminate.
  destruct (h !! l) as [[fields|ctor fields|items]|]; try discriminate;
    intros H; apply fmap_Some in H as (ts & _ & ->); reflexivity.
Qed.

(** The two tests of the engine give the same answer on a stored value and
    on the tree it stands for. *)
Lemma kind_agree n (s h : Store.heap) v t :
  s ⊆ h -> Store.read n s v = Some t ->
  Store.isPlainObject h v = isPlainObject t
  /\ Store.Array_isArray h v = Array_isArray t.
Proof.
  intros Hsub. destruct n, v; simpl;
    try (intros [= <-]; split; reflexivity); try discriminate.
  destruct (s !! l) as [c|] eqn:E; [|discriminate].
  rewrite (lookup_weaken _ _ _ _ E Hsub).
  destruct c as [fields|ctor fields|items]; intros H;
    apply fmap_Some in H as (ts & Hts & ->); split; try reflexivity.
  apply mapM_Some in Hts.
  unfold isPlainObject, constructor_is_Object. simpl.
  rewrite (obj_get_read _ _ _ "constructor" Hts).
  destruct (obj_get fields "constructor") as [c|] eqn:Ec; [|reflexivity].
  simpl. destruct (Store.read n s c) as [t|] eqn:Et.
  - now apply read_Object_function in Et.
  - exfalso. apply obj_get_In in Ec.
    apply list_elem_of_In, list_elem_of_lookup in Ec as [i Hi].
    eapply Forall2_lookup_l in Hts as (tkv & _ & Hr); [|exact Hi].
    unfold Store.read_field in Hr. simpl in Hr. now rewrite Et in Hr.
Qed.

Lemma Forall2_put_own (rd : Store.hvalue -> option value) fields ts key v t :
  Forall2 (fun kv tkv => Store.read_field rd kv = Some tkv) fields ts ->
  rd v = Some t ->
  Forall2 (fun kv tkv => Store.read_field rd kv = Some tkv)
  (put_own fields key v) (put_own ts key t).
Proof.
  intros Hf Hv. induction Hf as [|[k w] [k' tw] fields ts Hhd Htl IH]; simpl.
  - constructor; [|constructor]. unfold Store.read_field. simpl. now rewrite Hv.
  - assert (k' = k) as ->.
    { unfold Store.read_field in Hhd. simpl in Hhd.
      destruct (rd w); [|discriminate]. now injection Hhd as <- _. }
    destruct (String.eqb k key).
    + constructor; [|exact Htl]. unfold Store.read_field. simpl. now rewrite Hv.
    + constructor; [exact Hhd | exact IH].
Qed.

Lemma Forall2_obj_set (rd : Store.hvalue -> option value) fields ts key v t :
  Forall2 (fun kv tkv => Store.read_field rd kv = Some tkv) fields ts ->
  rd v = Some t ->
  Forall2 (fun kv tkv => Store.read_field rd kv = Some tkv)
  (obj_set fields key v) (obj_set ts key t).
Proof.
  unfold obj_set. destruct (String.eqb key proto_name); [auto|].
  apply Forall2_put_own.
Qed.

Lemma obj_get_distinct {V} (obj : list (string * V)) k v :
  distinct_keys obj = true -> In (k, v) obj -> obj_get obj k = Some v.
Proof.
  induction obj as [|[k0 w] obj IH]; simpl; [tauto|].
  intros Hd [[= -> ->]|Hin].
  - now rewrite String.eqb_refl.
  - apply andb_true_iff in Hd as [Hk Hd]. apply negb_true_iff in Hk.
    destruct (String.eqb k0 k) eqn:E; [|now apply IH].
    apply String.eqb_eq in E as ->.
    apply In_has_key in Hin. congruence.
Qed.

Lemma distinct_keys_same_keys {V W} (obj : list (string * V))
  (obj' : list (string * W)) :
  Forall2 (fun kv kv' => kv'.1 = kv.1) obj obj' ->
  distinct_keys obj' = distinct_keys obj.
Proof.
  induction 1 as [|[k v] [k' v'] obj obj' Hk Htl IH]; simpl; [reflexivity|].
  simpl in Hk. subst k'. rewrite IH. f_equal. f_equal.
  clear IH. induction Htl as [|[k1 v1] [k1' v1'] ? ? Hk1 _ IH1]; simpl;
    [reflexivity|].
  simpl in Hk1. subst k1'. now rewrite IH1.
Qed.


(** *** The store view refines the tree view *)

Section LoopRefine.
Variables (r : string) (d a : bool) (n : nat).
Let trec := _recursiveSanitize r d a.
Let srec := Store._recursiveSanitize r d a n.

Hypothesis IHn :
  forall cur t hs (X : gset Store.loc) (H : Store.heap),
    (forall l, l ∈ X -> is_Some (H !! l)) ->
    Store.read n (Store.without X H) cur = Some t ->
    wf_value t = true ->
    exists r' H',
      srec cur H hs = Some (r', H', snd (trec t hs))
      /\ Store.read n (Store.without X H') r' = Some (fst (trec t hs)).

Lemma for_in_refine (X : gset Store.loc) lo cur all_fields :
  lo ∈ X ->
  forall fields tfields (Hc : Store.heap) newfs tnew hs,
    Forall2 (fun kv tkv =>
      Store.read_field (Store.read n (Store.without X Hc)) kv
      = Some tkv) fields tfields ->
    Forall (fun tkv : string * value => wf_value tkv.2 = true) tfields ->
    Forall (fun kv : string * Store.hvalue =>
      obj_get all_fields kv.1 = Some kv.2) fields ->
    (forall l, l ∈ X -> is_Some (Hc !! l)) ->
    Store.without X Hc !! cur = Some (Store.CObject all_fields) ->
    Hc !! lo = Some (Store.CObject newfs) ->
    Forall2 (fun kv tkv =>
      Store.read_field (Store.read n (Store.without X Hc)) kv
      = Some tkv) newfs tnew ->
    exists Hf newfs_f,
      Store.for_in r d a srec cur lo (fields.*1) Hc hs
      = Some (Hf, snd (for_in r d a trec tfields tnew hs))
      /\ Hf !! lo = Some (Store.CObject newfs_f)
      /\ Forall2 (fun kv tkv =>
        Store.read_field (Store.read n (Store.without X Hf)) kv
        = Some tkv)
      newfs_f (fst (for_in r d a trec tfields tnew hs)).
Proof.
  intros Hlo. induction fields as [|[key val] fields IH];
    intros tfields Hc newfs tnew hs Hf Hw Hget HX Hcur Hnew Hread;
    inversion Hf as [|? [tk tv] ? trest Hhd Htl]; subst.
  - exists Hc, newfs. simpl. auto.
  - apply read_field_key in Hhd as [Hk Hv]. simpl in Hk, Hv. subst tk.
    inversion Hw as [|? ? Hwv Hwrest]; subst. simpl in Hwv.
    inversion Hget as [|? ? Hgv Hgrest]; subst. simpl in Hgv.
    assert (forall (Hc2 : Store.heap) v' tv' hs' newKey,
        Hc ⊆ Hc2 ->
        Store.read n (Store.without X Hc2) v' = Some tv' ->
        exists Hf newfs_f,
        Store.for_in r d a srec cur lo (fields.*1)
        (Store.set_prop Hc2 lo newKey v') hs'
        = Some (Hf, snd (for_in r d a trec trest
            (obj_set tnew newKey tv') hs'))
        /\ Hf !! lo = Some (Store.CObject newfs_f)
        /\ Forall2 (fun kv tkv =>
          Store.read_field
          (Store.read n (Store.without X Hf)) kv
          = Some tkv)
        newfs_f
        (fst (for_in r d a trec trest
            (obj_set tnew newKey tv') hs'))) as Hcont.
    { intros Hc2 v' tv' hs' newKey Hsub Hv'.
      pose proof (without_mono X _ _ Hsub) as Hsub'.
      apply IH with (newfs := obj_set newfs newKey v');
        rewrite ?without_set_prop by exact Hlo.
      - eapply Forall2_impl; [exact Htl|]. intros kv tkv.
        apply read_field_impl. intros u w. now apply read_weaken.
      - exact Hwrest.
      - exact Hgrest.
      - intros l Hl. apply set_prop_is_Some.
        destruct (HX l Hl) as [c Hc']. exists c.
        eapply lookup_weaken; eauto.
      - eapply lookup_weaken; eauto.
      - apply set_prop_lookup. eapply lookup_weaken; eauto.
      - apply Forall2_obj_set; [|exact Hv'].
        eapply Forall2_impl; [exact Hread|]. intros kv tkv.
        apply read_field_impl. intros u w. now apply read_weaken. }
    apply without_lookup in Hcur as Hcur'. destruct Hcur' as [Hcur' _].
    destruct (kind_agree n _ Hc val tv (without_sub X Hc) Hv) as [Ep Ea].
    simpl Store.for_in. unfold Store.get_prop. rewrite Hcur', Hgv.
    simpl for_in.
    destruct (truthy (String_match key (charRegex a)));
      rewrite Ep, Ea;
      (destruct (isPlainObject tv || Array_isArray tv) eqn:Hcont_tv;
        [ match goal with |- context [srec val Hc ?x] =>
          destruct (IHn val tv x X Hc HX Hv Hwv) as (r' & Hc2 & Erun & Hr');
          rewrite Erun; simpl;
          destruct (trec tv x) as [rr hs2]; simpl in *;
          apply Hcont; [|exact Hr'];
          eapply recursiveSanitize_frame; exact Erun
          end
          | ]);
      (destruct tv; simpl in Hcont_tv; try discriminate;
        [ apply read_string_inv in Hv as Hval; subst val; simpl;
          destruct (truthy (String_match s (charRegex a))), d; simpl;
          apply Hcont; try reflexivity; try exact Hv; now destruct n
          | destruct val; destruct n; simpl in Hv; try discriminate;
          apply Hcont; try reflexivity; exact Hv .. ]).
Qed.

Lemma map_item_refine (X : gset Store.loc) item titem (Hc : Store.heap) hs :
  (forall l, l ∈ X -> is_Some (Hc !! l)) ->
  Store.read n (Store.without X Hc) item = Some titem ->
  wf_value titem = true ->
  exists r' Hc2,
    Store.map_item r d a srec item Hc hs
    = Some (r', Hc2, snd (map_item r d a trec titem hs))
    /\ Hc ⊆ Hc2
    /\ Store.read n (Store.without X Hc2) r'
    = Some (fst (map_item r d a trec titem hs)).
Proof.
  intros HX Hv Hw. unfold Store.map_item, map_item.
  destruct (kind_agree n _ Hc item titem (without_sub X Hc) Hv) as [-> ->].
  destruct (isPlainObject titem || Array_isArray titem) eqn:Hk.
  - destruct (IHn item titem hs X Hc HX Hv Hw) as (r' & Hc2 & Erun & Hr').
    exists r', Hc2. repeat split; [exact Erun | | exact Hr'].
    eapply recursiveSanitize_frame; exact Erun.
  - destruct titem; simpl in Hk; try discriminate;
      [ apply read_string_inv in Hv as Hval; subst item;
        destruct (truthy (String_match s (charRegex a)) && negb d);
        eexists _, Hc; (split; [reflexivity|split; [reflexivity|]]);
        now destruct n
        | destruct item; destruct n; simpl in Hv; try discriminate;
        eexists _, Hc; (split; [reflexivity|split; [reflexivity|]]);
        exact Hv .. ].
Qed.

Lemma Array_map_refine (X : gset Store.loc) :
  forall items titems (Hc : Store.heap) hs,
    Forall2 (fun v t => Store.read n (Store.without X Hc) v = Some t)
    items titems ->
    Forall (fun t => wf_value t = true) titems ->
    (forall l, l ∈ X -> is_Some (Hc !! l)) ->
    exists rs Hf,
      Store.Array_map r d a srec items Hc hs
      = Some (rs, Hf, snd (Array_map r d a trec titems hs))
      /\ Hc ⊆ Hf
      /\ Forall2 (fun v t => Store.read n (Store.without X Hf) v = Some t)
      rs (fst (Array_map r d a trec titems hs)).
Proof.
  induction items as [|item items IH]; intros titems Hc hs Hf Hw HX;
    inversion Hf as [|? titem ? trest Hhd Htl]; subst.
  - exists [], Hc. simpl. split; [reflexivity|split; [reflexivity|constructor]].
  - inversion Hw as [|? ? Hwv Hwrest]; subst.
    destruct (map_item_refine X item titem Hc hs HX Hhd Hwv)
      as (r1 & Hc1 & E1 & Hsub1 & Hr1).
    simpl. rewrite E1. simpl.
    destruct (map_item r d a trec titem hs) as [tr1 hs1]. simpl in *.
    destruct (IH trest Hc1 hs1) as (rs & Hf2 & E2 & Hsub2 & Hr2).
    { eapply Forall2_impl; [exact Htl|]. intros u w.
      apply read_weaken. now apply without_mono. }
    { exact Hwrest. }
    { intros l Hl. destruct (HX l Hl) as [c Hc']. exists c.
      eapply lookup_weaken; eauto. }
    rewrite E2. simpl.
    destruct (Array_map r d a trec trest hs1) as [trs hs2]. simpl in *.
    exists (r1 :: rs), Hf2. split; [reflexivity|split].
    + etransitivity; eauto.
    + constructor; [|exact Hr2].
      eapply read_weaken; [|exact Hr1]. now apply without_mono.
Qed.
End LoopRefine.

(** The traversal of a plain object is the loop over its entries. *)
Lemma recursiveSanitize_plain r d a fields hs :
  isPlainObject (VObject fields) = true ->
  _recursiveSanitize r d a (VObject fields) hs
  = (let '(newObj, hasSanitized) :=
       for_in r d a (_recursiveSanitize r d a) fields [] hs in
     (VObject newObj, hasSanitized)).
Proof. intros Hp. simpl. now rewrite Hp. Qed.

(** The store-level traversal, run on a value that stands for the tree [t]
    in the part of the heap outside [X], returns a value that stands for the
    tree returned by the tree-level traversal, again outside [X], and the
    same flag; the depth of [t] is fuel enough. *)
Lemma recursiveSanitize_refine r d a n :
  forall cur t hs (X : gset Store.loc) (H : Store.heap),
    (forall l, l ∈ X -> is_Some (H !! l)) ->
    Store.read n (Store.without X H) cur = Some t ->
    wf_value t = true ->
    exists r' H',
      Store._recursiveSanitize r d a n cur H hs
      = Some (r', H', snd (_recursiveSanitize r d a t hs))
      /\ Store.read n (Store.without X H') r'
      = Some (fst (_recursiveSanitize r d a t hs)).
Proof.
  induction n as [|n IH]; intros cur t hs X H HX Hv Hw.
  - destruct cur; simpl in Hv; try discriminate;
      injection Hv as <-; eexists _, H; split; reflexivity.
  - destruct cur;
      try (simpl in Hv; injection Hv as <-; eexists _, H; split; reflexivity).
    rewrite read_ref in Hv.
    destruct (Store.without X H !! l) as [c|] eqn:El; [|discriminate].
    apply without_lookup in El as El'. destruct El' as [El' HlX].
    assert (forall lo, H !! lo = None -> lo ∉ X) as Hfresh.
    { intros lo Hn Hin. destruct (HX lo Hin) as [? ?]. congruence. }
    pose proof (is_fresh (dom H)) as Hfr. apply not_elem_of_dom in Hfr.
    simpl Store._recursiveSanitize. rewrite El'.
    destruct c as [fields|ctor fields|items];
      apply fmap_Some in Hv as (ts & Hv & ->); apply mapM_Some in Hv.
    + (* an object whose prototype is [Object.prototype] *)
      assert (Store.isPlainObject H (Store.HRef l)
              = isPlainObject (VObject ts)) as Hpl.
      { eapply (kind_agree (S n) (Store.without X H) H);
          [apply without_sub|].
        rewrite read_ref, El. apply fmap_Some. exists ts.
        split; [now apply mapM_Some | reflexivity]. }
      unfold Store.isPlainObject in Hpl. rewrite El' in Hpl. rewrite Hpl.
      destruct (isPlainObject (VObject ts)) eqn:Hpt;
        [|rewrite recursiveSanitize_other
            by (unfold is_container; now rewrite Hpt);
          eexists _, H; split; [reflexivity|];
          rewrite read_ref, El; apply fmap_Some; exists ts;
          split; [now apply mapM_Some | reflexivity]].
      rewrite (recursiveSanitize_plain r d a ts hs Hpt).
      simpl in Hw. apply andb_true_iff in Hw as [Hd Hw].
      unfold Store.alloc.
      set (lo := fresh (dom H)) in *.
      set (H1 := <[lo := Store.CObject []]> H).
      destruct (for_in_refine r d a n (IH) (X ∪ {[lo]}) lo l fields)
        with (fields := fields) (tfields := ts) (Hc := H1)
        (newfs := @nil (string * Store.hvalue))
        (tnew := @nil (string * value)) (hs := hs)
        as (Hf & newfs_f & Erun & Hlo & Hr).
      * apply elem_of_union_r, elem_of_singleton. reflexivity.
      * eapply Forall2_impl; [exact Hv|]. intros kv tkv.
        apply read_field_impl. intros u w. apply read_weaken.
        now apply without_alloc.
      * apply List.Forall_forall. intros tkv Hin.
        rewrite forallb_forall in Hw. now apply Hw.
      * assert (distinct_keys fields = true) as Hdf.
        { rewrite <- Hd. symmetry. apply distinct_keys_same_keys.
          eapply Forall2_impl; [exact Hv|]. intros kv tkv E.
          now apply read_field_key in E as [? _]. }
        apply List.Forall_forall. intros [k v] Hin.
        now apply obj_get_distinct.
      * intros l0 Hl0. unfold H1.
        destruct (decide (l0 = lo)) as [->|Hne].
        -- rewrite lookup_insert_eq. eauto.
        -- rewrite lookup_insert_ne by congruence. apply HX.
           apply elem_of_union in Hl0 as [?|Hl0]; [assumption|].
           apply elem_of_singleton in Hl0. congruence.
      * eapply lookup_weaken; [exact El|]. now apply without_alloc.
      * apply lookup_insert_eq.
      * constructor.
      * fold H1. rewrite Erun. with_strategy opaque [Store.read] simpl.
        destruct (for_in r d a (_recursiveSanitize r d a) ts [] hs)
          as [tobj hs'] eqn:Et.
        with_strategy opaque [Store.read] (simpl in * ).
        eexists _, Hf. split; [reflexivity|].
        rewrite read_ref.
        assert (Store.without X Hf !! lo = Some (Store.CObject newfs_f))
          as ->
          by (apply without_lookup; split; [exact Hlo | now apply Hfresh]).
        apply fmap_Some. exists tobj. split; [|reflexivity].
        apply mapM_Some. eapply Forall2_impl; [exact Hr|].
        intros kv tkv. apply read_field_impl. intros u w.
        apply read_weaken, without_more.
    + (* an object of another constructor *)
      eexists _, H. split; [reflexivity|].
      rewrite read_ref, El. apply fmap_Some. exists ts.
      split; [now apply mapM_Some | reflexivity].
    + (* an array *)
      simpl in Hw.
      destruct (Array_map_refine r d a n IH X items ts H hs)
        as (rs & Hf & Erun & Hsub & Hr).
      * exact Hv.
      * apply List.Forall_forall. intros tv Hin.
        rewrite forallb_forall in Hw. now apply Hw.
      * exact HX.
      * rewrite Erun. with_strategy opaque [Store.read] simpl.
        destruct (Array_map r d a (_recursiveSanitize r d a) ts hs)
          as [titems hs'] eqn:Et.
        with_strategy opaque [Store.read] (simpl in * ).
        eexists _, _. split; [reflexivity|].
        assert (Hf !! fresh (dom Hf) = None) as Hfr'
          by (apply not_elem_of_dom, is_fresh).
        rewrite read_ref.
        assert (Store.without X (<[fresh (dom Hf) := Store.CArray rs]> Hf)
            !! fresh (dom Hf) = Some (Store.CArray rs)) as ->.
        { apply without_lookup. split; [apply lookup_insert_eq|].
          intros Hin. destruct (HX _ Hin) as [c Hc].
          pose proof (lookup_weaken _ _ _ _ Hc Hsub). congruence. }
        apply fmap_Some. exists titems. split; [|reflexivity].
        apply mapM_Some. eapply Forall2_impl; [exact Hr|].
        intros u w. apply read_weaken, without_mono.
        now apply insert_subseteq.
Qed.


(** [Store._sanitize], run on a value that stands for the tree [t], returns
    the flag of the tree-level [_sanitize] and a target that stands for its
    target. *)
Lemma sanitize_refine n obj t options (h : Store.heap) :
  Store.read n h obj = Some t ->
  wf_value t = true ->
  exists res h',
    Store._sanitize n obj options h = Some (res, h')
    /\ Store.isSanitized res = isSanitized (_sanitize t options)
    /\ Store.read n h' (Store.target res) = Some (target (_sanitize t options)).
Proof.
  intros Hv Hw. unfold Store._sanitize, _sanitize, cloneDeep.
  destruct (kind_agree n h h obj t (reflexivity h) Hv) as [Ep Ea].
  destruct obj.
  1: { assert (t = VString s) as ->
         by (destruct n; simpl in Hv; now injection Hv as <-).
       destruct (truthy _), (opt_flag (dryRun options));
         eexists _, h; repeat split; now destruct n. }
  1-5: (destruct n; simpl in Hv; injection Hv as <-;
      eexists _, h; repeat split).
  rewrite Ep, Ea.
  destruct (isPlainObject t || Array_isArray t) eqn:Hk.
  - destruct (orb_prop _ _ Hk) as [Hp|Hp];
      rewrite Hp, ?orb_true_r, ?andb_false_r; simpl negb; simpl andb.
    all: destruct (cloneDeep_read n _ h t Hv) as (tgt & h1 & -> & Hsub1 & Ht).
    all: destruct (recursiveSanitize_refine (opt_replaceWith options)
        (opt_flag (dryRun options)) (opt_flag (allowDots options))
        n tgt t false ∅ h1)
      as (r' & h2 & Erun & Hr');
      [ intros l0 Hl0; now apply not_elem_of_empty in Hl0
        | eapply read_weaken; [apply without_empty | exact Ht]
        | exact Hw |].
    all: pose proof (recursiveSanitize_frame _ _ _ _ _ _ _ _ _ _ Erun) as Hsub2.
    all: with_strategy opaque [Store.read] simpl; rewrite Erun;
      with_strategy opaque [Store.read] simpl.
    all: destruct t; try discriminate.
    all: destruct (_recursiveSanitize _ _ _ _ false) as [st hs'];
      eexists _, h2; (split; [reflexivity|]);
      with_strategy opaque [Store.read] simpl in *; (split; [reflexivity|]).
    all: destruct (opt_flag (dryRun options));
      [ eapply read_weaken; [|exact Hv]; etransitivity; eauto
        | eapply read_weaken; [apply without_sub | exact Hr'] ].
  - apply orb_false_iff in Hk as [-> ->]. simpl.
    eexists _, h. split; [reflexivity|].
    destruct t; try discriminate; try (split; [reflexivity | exact Hv]).
    exfalso. destruct n; simpl in Hv; [discriminate|].
    destruct (h !! l) as [[?|? ?|?]|]; try discriminate;
      apply fmap_Some in Hv as (? & _ & [=]).
Qed.

End StoreFacts.

(* ================================================================= *)
(** ** The caller's value *)

(** A run of the store-level engine on the object [{ "a.b": ["$x"], "n": 1 }]
    held in two cells: the result stands for [{ "a_b": ["_x"], "n": 1 }], is
    flagged, and the two cells of the argument are as they were. *)
Example store_run :
  let h : Store.heap :=
  <[0 := Store.CObject [("a.b", Store.HRef 1); ("n", Store.HNumber 1)]]>
  (<[1 := Store.CArray [Store.HString "$x"]]> ∅) in
  match Store._sanitize 2 (Store.HRef 0) no_options h with
  | Some (res, h') =>
  Store.isSanitized res = true
  /\ Store.read 2 h' (Store.target res)
  = Some (VObject [("a_b", VArray [VString "_x"]); ("n", VNumber 1)])
  /\ Store.target res <> Store.HRef 0
  /\ h' !! 0 = h !! 0 /\ h' !! 1 = h !! 1
  | None => False
  end.
Proof. vm_compute. repeat split; discriminate. Qed.

(** C3: let [obj] stand for the tree [t] in the heap [h], the objects of [t]
    having distinct property names.  Then every run of [_sanitize] on [obj]
    that returns, under any options, leaves every cell of [h] as it was, so
    that [obj] still stands for [t] afterwards; and the run with the depth of
    [t] as fuel does return, with the flag and a target that stands for the
    target of the tree-level [_sanitize]. *)
Theorem input_not_mutated n (h : Store.heap) obj t options :
  Store.read n h obj = Some t ->
  wf_value t = true ->
  (forall fuel res h',
    Store._sanitize fuel obj options h = Some (res, h') ->
    (forall l c, h !! l = Some c -> h' !! l = Some c)
    /\ Store.read n h' obj = Some t)
  /\ exists res h',
  Store._sanitize n obj options h = Some (res, h')
  /\ Store.isSanitized res = isSanitized (_sanitize t options)
  /\ Store.read n h' (Store.target res)
  = Some (target (_sanitize t options)).
Proof.
  intros Hv Hw. split.
  - intros fuel res h' Hrun.
    apply StoreFacts.sanitize_frame in Hrun as Hsub. split.
    + intros l c Hl. eapply lookup_weaken; eauto.
    + eapply StoreFacts.read_weaken; eauto.
  - now apply StoreFacts.sanitize_refine.
Qed.

Lemma input_not_mutated_witness :
  let h : Store.heap :=
  <[0 := Store.CObject [("a.b", Store.HRef 1); ("n", Store.HNumber 1)]]>
  (<[1 := Store.CArray [Store.HString "$x"]]> ∅) in
  let t := VObject [("a.b", VArray [VString "$x"]); ("n", VNumber 1)] in
  (forall fuel res h',
    Store._sanitize fuel (Store.HRef 0) no_options h = Some (res, h') ->
    (forall l c, h !! l = Some c -> h' !! l = Some c)
    /\ Store.read 2 h' (Store.HRef 0) = Some t)
  /\ exists res h',
  Store._sanitize 2 (Store.HRef 0) no_options h = Some (res, h')
  /\ Store.isSanitized res = isSanitized (_sanitize t no_options)
  /\ Store.read 2 h' (Store.target res)
  = Some (target (_sanitize t no_options)).
Proof.
  apply (input_not_mutated 2
      (<[0 := Store.CObject [("a.b", Store.HRef 1);
            ("n", Store.HNumber 1)]]>
        (<[1 := Store.CArray [Store.HString "$x"]]> ∅))
      (Store.HRef 0)
      (VObject [("a.b", VArray [VString "$x"]); ("n", VNumber 1)])
      no_options).
  - vm_compute. reflexivity.
  - reflexivity.
Defined.

(** C2: in a dry run, whatever the other settings, [_sanitize] returns its
    argument as the target, and so does [sanitize]; at the level of the store
    the target is the reference that was passed, and it stands for the same
    tree after the run as before. *)
Theorem dry_run_returns_input v options :
  opt_flag (dryRun options) = true ->
  target (_sanitize v options) = v
  /\ sanitize v (Some options) = v
  /\ forall fuel obj (h : Store.heap) res h',
  Store._sanitize fuel obj options h = Some (res, h') ->
  Store.target res = obj
  /\ forall n, Store.read n h obj = Some v -> Store.read n h' obj = Some v.
Proof.
  intros Hd. rewrite sanitize_Some, sanitize_target, Hd.
  repeat split; intros.
  - revert H. unfold Store._sanitize. rewrite Hd.
    destruct obj;
      try (destruct (truthy _); now intros [= <- _]);
      try (simpl; now intros [= <- _]).
    destruct (_ && _); [now intros [= <- _]|].
    destruct (Store.cloneDeep _ _ _) as [[tgt h1]|]; simpl; [|discriminate].
    destruct (Store._recursiveSanitize _ _ _ _ _ _ _) as [[[st h2] hs]|];
      simpl; [|discriminate].
    now intros [= <- _].
  - eapply StoreFacts.read_weaken; [|eassumption].
    eapply StoreFacts.sanitize_frame; eassumption.
Qed.

Lemma dry_run_returns_input_witness :
  let v := VObject [("a.b", VArray [VString "$x"; VNumber 1])] in
  let options := mkOptions (Some (VString "-")) (Some true) None in
  target (_sanitize v options) = v
  /\ sanitize v (Some options) = v
  /\ forall fuel obj (h : Store.heap) res h',
  Store._sanitize fuel obj options h = Some (res, h') ->
  Store.target res = obj
  /\ forall n, Store.read n h obj = Some v -> Store.read n h' obj = Some v.
Proof.
  apply (dry_run_returns_input
      (VObject [("a.b", VArray [VString "$x"; VNumber 1])])
      (mkOptions (Some (VString "-")) (Some true) None)).
  reflexivity.
Defined.

(* ================================================================= *)
(** ** Further properties of the engine *)

Section Clean.
Variables (r : string) (a : bool).
Hypothesis r_clean : string_has (forbidden a) r = false.
Hypothesis r_literal : has_pattern r = false.

Local Abbreviation entry_clean :=
  (fun kv : string * value =>
     string_has (forbidden a) (fst kv) = false
     /\ occurs a (snd kv) = false /\ wf_value (snd kv) = true).

Lemma clean_entries fields :
  Forall entry_clean fields ->
  existsb (fun kv => string_has (forbidden a) (fst kv)
                     || occurs a (snd kv)) fields = false
  /\ forallb (fun kv => wf_value (snd kv)) fields = true.
Proof.
  intros H. split.
  - apply not_true_is_false. intros E.
    apply existsb_exists in E as (kv & Hin & E).
    rewrite List.Forall_forall in H. destruct (H kv Hin) as (Hk & Hv & _).
    now rewrite Hk, Hv in E.
  - apply forallb_forall. intros kv Hin.
    rewrite List.Forall_forall in H. now destruct (H kv Hin) as (_ & _ & ?).
Qed.

Lemma fold_store_clean fields :
  Forall (fun kv => occurs a (child_of r false a (snd kv)) = false
                    /\ wf_value (child_of r false a (snd kv)) = true)
    fields ->
  forall newObj,
    distinct_keys newObj = true -> Forall entry_clean newObj ->
    distinct_keys (fold_left (store_entry r false a) fields newObj) = true
    /\ Forall entry_clean (fold_left (store_entry r false a) fields newObj).
Proof.
  induction 1 as [|[key val] fields [Hval Hwf] _ IH]; intros newObj Hd Hf;
    simpl.
  - now split.
  - apply IH; unfold store_entry; simpl.
    + now apply distinct_keys_obj_set.
    + apply Forall_obj_set; simpl.
      * exact Hf.
      * intros _. repeat split;
          [now apply newKey_of_clean | exact Hval | exact Hwf].
      * intros k w (Hk & _ & _). repeat split; assumption.
Qed.

(** For a tree of plain objects, arrays and primitive values, what the
    engine returns holds no forbidden character anywhere, and its objects
    have distinct names. *)
Lemma child_of_clean v :
  plain_data v = true ->
  occurs a (child_of r false a v) = false
  /\ wf_value (child_of r false a v) = true.
Proof.
  induction v as [s|n|b| | |name|c fields|fields IH|items IH]
    using value_induction; intros Hp; try discriminate;
    try (rewrite child_of_other by (reflexivity || discriminate);
      now split).
  - rewrite child_of_string, andb_true_r.
    split; [|now destruct (string_has _ s)].
    destruct (string_has (forbidden a) s) eqn:Hs; simpl; [|exact Hs].
    rewrite String_replace_literal by exact r_literal.
    rewrite (replace_literally_ext _ (forbidden a))
      by apply charRegex_forbidden.
    now apply replace_literally_removes.
  - simpl in Hp. apply andb_true_iff in Hp as [Hpl Hp].
    rewrite forallb_forall in Hp.
    rewrite child_of_object by exact Hpl.
    destruct (fold_store_clean fields) with (newObj := @nil (string * value))
      as [Hd Hf]; [|reflexivity|constructor|].
    + apply List.Forall_forall. intros kv Hin.
      rewrite List.Forall_forall in IH. apply (IH kv Hin), Hp, Hin.
    + destruct (clean_entries _ Hf) as [Ho Hw]. simpl.
      now rewrite Ho, Hd, Hw.
  - simpl in Hp. rewrite forallb_forall in Hp.
    rewrite child_of_array. simpl. split.
    + apply not_true_is_false. intros E.
      apply existsb_exists in E as (x & Hin & E).
      apply in_map_iff in Hin as (v & <- & Hin).
      rewrite List.Forall_forall in IH.
      destruct (IH v Hin (Hp v Hin)) as [Ho _]. congruence.
    + apply forallb_forall. intros x Hin.
      apply in_map_iff in Hin as (v & <- & Hin).
      rewrite List.Forall_forall in IH.
      now destruct (IH v Hin (Hp v Hin)).
Qed.
End Clean.

(** X2: outside a dry run and with a replacement text that holds neither a
    forbidden character nor a pattern, the value returned for a tree of
    plain objects, arrays and primitive values without property [__proto__]
    holds no forbidden character in any property name or string, and its
    objects have distinct names; under the default policy [has] answers
    [false] on it. *)
Theorem sanitized_is_clean v options :
  opt_flag (dryRun options) = false ->
  has_pattern (opt_replaceWith options) = false ->
  string_has (forbidden (opt_flag (allowDots options)))
    (opt_replaceWith options) = false ->
  plain_data v = true ->
  ordinary v = true ->
  occurs (opt_flag (allowDots options)) (sanitize v (Some options)) = false
  /\ wf_value (sanitize v (Some options)) = true
  /\ has (sanitize v None) = false.
Proof.
  intros Hd Hr Hc Hp _. rewrite !sanitize_Some, sanitize_target, Hd.
  destruct (child_of_clean _ _ Hc Hr v Hp) as [Ht Hw].
  repeat split; [exact Ht | exact Hw|].
  rewrite has_spec.
  assert (occurs false (sanitize v None) = false) as H.
  { unfold sanitize. simpl default. rewrite sanitize_target. simpl.
    now destruct (child_of_clean "_" false eq_refl eq_refl v Hp). }
  destruct (sanitize v None); try reflexivity. exact H.
Qed.

Lemma sanitized_is_clean_witness :
  let v := VObject [("$where", VString "a.b"); ("x", VArray [VString "$"])] in
  let options := mkOptions (Some (VString "-")) None (Some true) in
  occurs true (sanitize v (Some options)) = false
  /\ wf_value (sanitize v (Some options)) = true
  /\ has (sanitize v None) = false.
Proof.
  apply (sanitized_is_clean
           (VObject [("$where", VString "a.b"); ("x", VArray [VString "$"])])
           (mkOptions (Some (VString "-")) None (Some true)));
    reflexivity.
Defined.

(** X3: outside a dry run, on a tree without property [__proto__] whose
    objects have distinct names, an unset flag means that the value
    returned is the argument, and a set flag that a property name or a
    string which the engine reaches, through plain objects and arrays,
    holds a forbidden character; with a replacement text that holds neither
    a forbidden character nor a pattern, the flag is set exactly when the
    value returned differs from the argument. *)
Theorem flag_tells_change v options :
  opt_flag (dryRun options) = false ->
  wf_value v = true ->
  ordinary v = true ->
  (isSanitized (_sanitize v options) = false ->
   target (_sanitize v options) = v)
  /\ (isSanitized (_sanitize v options) = true ->
      tree_has (opt_flag (allowDots options)) v = true)
  /\ (has_pattern (opt_replaceWith options) = false ->
      string_has (forbidden (opt_flag (allowDots options)))
        (opt_replaceWith options) = false ->
      (isSanitized (_sanitize v options) = true
       <-> target (_sanitize v options) <> v)).
Proof.
  intros Hd Hw Ho. rewrite (isSanitized_run v options Hd).
  assert (tree_has (opt_flag (allowDots options)) v = false ->
          target (_sanitize v options) = v) as Hsame.
  { intros Ht. rewrite sanitize_stable; [reflexivity|].
    now apply clean_stable. }
  split; [exact Hsame|]. split; [auto|].
  intros Hr Hc. split.
  - intros Ht E. rewrite sanitize_target, Hd in E.
    pose proof (child_of_stable _ _ Hc Hr v) as Hst.
    apply stable_tree_has in Hst. rewrite E in Hst. congruence.
  - intros Hne. destruct (tree_has _ v) eqn:Ht; [reflexivity|].
    now destruct Hne; apply Hsame.
Qed.

Lemma flag_tells_change_witness :
  let v := VArray [VObject [("a.b", VNumber 1)]; VString "ok"] in
  let options := mkOptions None None None in
  (isSanitized (_sanitize v options) = false ->
   target (_sanitize v options) = v)
  /\ (isSanitized (_sanitize v options) = true -> tree_has false v = true)
  /\ (has_pattern "_" = false ->
      string_has (forbidden false) "_" = false ->
      (isSanitized (_sanitize v options) = true
       <-> target (_sanitize v options) <> v)).
Proof.
  apply (flag_tells_change
           (VArray [VObject [("a.b", VNumber 1)]; VString "ok"])
           (mkOptions None None None));
    reflexivity.
Defined.

(** X4: outside a dry run, and for trees without property [__proto__]: an
    array is sanitized element by element; and a plain object whose names
    are turned into pairwise different names, none of which is [__proto__]
    or may be an array index, is sanitized entry by entry, in the order of
    its entries. *)
Theorem sanitize_compositional options :
  opt_flag (dryRun options) = false ->
  (forall items,
     ordinary (VArray items) = true ->
     sanitize (VArray items) (Some options)
     = VArray (map (fun v => sanitize v (Some options)) items))
  /\ (forall fields,
        isPlainObject (VObject fields) = true ->
        ordinary (VObject fields) = true ->
        distinct_keys
          (map (fun kv => (sanitized_key options (fst kv), snd kv)) fields)
        = true ->
        Forall (fun kv =>
                  sanitized_key options (fst kv) <> proto_name
                  /\ index_like (sanitized_key options (fst kv)) = false)
          fields ->
        sanitize (VObject fields) (Some options)
        = VObject
            (map (fun kv => (sanitized_key options (fst kv),
                             sanitize (snd kv) (Some options))) fields)).
Proof.
  intros Hd.
  assert (forall v, sanitize v (Some options)
                    = child_of (opt_replaceWith options) false
                        (opt_flag (allowDots options)) v) as Hs
    by (intros v; now rewrite sanitize_Some, sanitize_target, Hd).
  split.
  - intros items _. rewrite Hs, child_of_array. f_equal.
    apply map_ext. intros v. now rewrite Hs.
  - intros fields Hp _ Hdk Hnames. rewrite Hs, child_of_object by exact Hp.
    f_equal. rewrite build_distinct.
    + apply map_ext. intros [k v]. simpl.
      now rewrite Hs, sanitized_key_run.
    + eapply Forall_impl; [exact Hnames|]. intros kv [Hne _].
      rewrite <- sanitized_key_run by exact Hd. now apply String.eqb_neq.
    + simpl. rewrite <- Hdk. apply StoreFacts.distinct_keys_same_keys.
      clear Hdk Hnames Hp.
      induction fields as [|[k v] fields IH]; simpl;
        constructor; [|exact IH].
      simpl. now rewrite sanitized_key_run.
Qed.

Lemma sanitize_compositional_witness :
  let options := mkOptions None (Some false) None in
  let fields := [("$gt", VString "a.b"); ("n", VArray [VString "$"])] in
  sanitize (VArray [VObject fields; VString "x.y"]) (Some options)
  = VArray (map (fun v => sanitize v (Some options))
              [VObject fields; VString "x.y"])
  /\ sanitize (VObject fields) (Some options)
     = VObject
         (map (fun kv => (sanitized_key options (fst kv),
                          sanitize (snd kv) (Some options))) fields).
Proof.
  split.
  - apply (proj1 (sanitize_compositional (mkOptions None (Some false) None)
                    eq_refl)
             [VObject [("$gt", VString "a.b"); ("n", VArray [VString "$"])];
              VString "x.y"]).
    reflexivity.
  - apply (proj2 (sanitize_compositional (mkOptions None (Some false) None)
                    eq_refl)
             [("$gt", VString "a.b"); ("n", VArray [VString "$"])]);
      try reflexivity.
    repeat constructor; discriminate.
Defined.

(** X1: [has] answers [true] exactly on a string that holds [$] or [.]; on
    every other value, a plain object or an array with such a key or string
    included, it answers [false]. *)
Theorem has_detects_strings_only v :
  has v = true
  <-> exists s,
        v = VString s
        /\ string_has (fun c => Ascii.eqb c "$" || Ascii.eqb c ".") s = true.
Proof.
  unfold has. rewrite sanitize_flag. simpl.
  assert (forall s, string_has (forbidden false) s
                    = string_has (fun c => Ascii.eqb c "$" || Ascii.eqb c ".")
                        s) as E
    by (intros s; apply string_has_ext; reflexivity).
  destruct v; try (split; [discriminate | intros (s0 & [=] & _)]).
  rewrite E. split; [eauto|]. now intros (s0 & [= <-] & H).
Qed.

(* ================================================================= *)
(** ** A replacement text that stands for the match *)

Lemma replace_from_match re before s :
  replace_from re "$&" before s = s.
Proof.
  revert before. induction s as [|c s IH]; intros before; simpl;
    [reflexivity|].
  rewrite IH. now destruct (re c).
Qed.

Lemma newKey_of_match a key : newKey_of "$&" a key = key.
Proof.
  unfold newKey_of, String_replace. rewrite replace_from_match.
  now destruct (truthy _).
Qed.

Lemma fold_store_same r d a fields :
  (forall k, newKey_of r a k = k) ->
  Forall (fun kv => child_of r d a (snd kv) = snd kv) fields ->
  forall newObj,
    distinct_keys (newObj ++ fields) = true ->
    has_key fields proto_name = false ->
    fold_left (store_entry r d a) fields newObj = newObj ++ fields.
Proof.
  intros Hk. induction 1 as [|[key val] fields Hval _ IH];
    intros newObj Hd Hnp; simpl.
  - now rewrite app_nil_r.
  - simpl in Hval, Hnp. apply orb_false_iff in Hnp as [Hkp Hnp].
    assert (store_entry r d a newObj (key, val) = newObj ++ [(key, val)])
      as ->.
    { unfold store_entry. simpl. rewrite Hk, Hval. apply obj_set_new.
      - exact Hkp.
      - apply distinct_keys_app in Hd as (_ & _ & Hd).
        destruct (has_key newObj key) eqn:E; [|reflexivity].
        specialize (Hd key E). simpl in Hd.
        now rewrite String.eqb_refl in Hd. }
    rewrite IH.
    + now rewrite <- app_assoc.
    + now rewrite <- app_assoc.
    + exact Hnp.
Qed.

Lemma child_of_match a v :
  wf_value v = true -> ordinary v = true -> child_of "$&" false a v = v.
Proof.
  induction v as [s|n|b| | |name|c fields|fields IH|items IH]
    using value_induction; intros Hw Ho;
    try (now rewrite child_of_other by (reflexivity || discriminate)).
  - rewrite child_of_string. unfold String_replace.
    rewrite replace_from_match. now destruct (_ && _).
  - destruct (isPlainObject (VObject fields)) eqn:Hp;
      [|apply child_of_other; [|discriminate];
        unfold is_container; now rewrite Hp].
    rewrite child_of_object by exact Hp. f_equal.
    apply wf_value_object in Hw as [Hd Hw].
    simpl in Ho. apply andb_true_iff in Ho as [Hnp Ho].
    apply negb_true_iff in Hnp. rewrite forallb_forall in Ho.
    apply (fold_store_same "$&" false a fields (newKey_of_match a)).
    + apply List.Forall_forall. intros [k v] Hin.
      rewrite List.Forall_forall in IH. apply (IH (k, v) Hin).
      * exact (Hw k v Hin).
      * exact (Ho (k, v) Hin).
    + exact Hd.
    + exact Hnp.
  - rewrite child_of_array. f_equal.
    simpl in Hw, Ho. rewrite forallb_forall in Hw, Ho.
    induction IH as [|v items Hv _ IHitems]; simpl; [reflexivity|].
    rewrite Hv, IHitems; auto; intros;
      (apply Hw || apply Ho); simpl; auto.
Qed.

(** X5: with the replacement text [$&], which [replace] expands to the
    matched character, every value without property [__proto__] whose
    objects have distinct names is returned as it is, while outside a dry
    run the flag still tells whether a property name or a string that the
    engine reaches holds a forbidden character. *)
Theorem match_pattern_disables v options :
  replaceWith options = Some (VString "$&") ->
  wf_value v = true ->
  ordinary v = true ->
  sanitize v (Some options) = v
  /\ (opt_flag (dryRun options) = false ->
      isSanitized (_sanitize v options)
      = tree_has (opt_flag (allowDots options)) v).
Proof.
  intros Hr Hw Ho. split; [|apply isSanitized_run].
  rewrite sanitize_Some, sanitize_target.
  destruct (opt_flag (dryRun options)); [reflexivity|].
  unfold opt_replaceWith. rewrite Hr. now apply child_of_match.
Qed.

Lemma match_pattern_disables_witness :
  let v := VObject [("$where", VString "1.1"); ("a.b", VArray [VString "$"])] in
  let options := mkOptions (Some (VString "$&")) None None in
  sanitize v (Some options) = v
  /\ (opt_flag (dryRun options) = false ->
      isSanitized (_sanitize v options) = tree_has false v).
Proof.
  apply (match_pattern_disables
           (VObject [("$where", VString "1.1");
                     ("a.b", VArray [VString "$"])])
           (mkOptions (Some (VString "$&")) None None));
    reflexivity.
Defined.

(* ================================================================= *)
(** ** The value returned shares no cell with the argument *)

Section CloneFresh.
Variables (n : nat) (X : gset Store.loc).
Variable rec : Store.hvalue -> Store.heap -> option (Store.hvalue * Store.heap).
Hypothesis rec_fresh :
  forall v (h : Store.heap) t,
    (forall l, l ∈ X -> is_Some (h !! l)) ->
    Store.read n h v = Some t ->
    exists v' h',
      rec v h = Some (v', h') /\ h ⊆ h'
      /\ Store.read n (Store.without X h') v' = Some t.

Lemma is_Some_weaken (h h' : Store.heap) :
  h ⊆ h' ->
  (forall l, l ∈ X -> is_Some (h !! l)) ->
  forall l, l ∈ X -> is_Some (h' !! l).
Proof.
  intros Hsub HX l Hl. destruct (HX l Hl) as [c Hc]. exists c.
  eapply lookup_weaken; eauto.
Qed.

Lemma clone_fields_fresh fields ts :
  forall h : Store.heap,
    (forall l, l ∈ X -> is_Some (h !! l)) ->
    Forall2 (fun kv t => Store.read_field (Store.read n h) kv = Some t)
      fields ts ->
    exists fields' h',
      Store.clone_fields rec fields h = Some (fields', h') /\ h ⊆ h'
      /\ Forall2 (fun kv t =>
                    Store.read_field (Store.read n (Store.without X h')) kv
                    = Some t) fields' ts.
Proof.
  revert ts. induction fields as [|[k v] fields IH]; intros ts h HX Hf;
    inversion Hf as [|? t ? ts' Hhd Htl]; subst; simpl.
  - exists [], h. split; [reflexivity|split; [reflexivity|constructor]].
  - apply StoreFacts.read_field_key in Hhd as [Hk Hv]. simpl in Hk, Hv.
    destruct (rec_fresh v h _ HX Hv) as (v1 & h1 & -> & Hsub1 & Hr1). simpl.
    destruct (IH ts' h1) as (fs2 & h2 & -> & Hsub2 & Hr2).
    { now apply (is_Some_weaken h). }
    { eapply Forall2_impl; [exact Htl|]. intros kv u.
      apply StoreFacts.read_field_impl. intros x y.
      now apply StoreFacts.read_weaken. }
    simpl. exists ((k, v1) :: fs2), h2.
    split; [reflexivity|split; [etransitivity; eauto|]].
    constructor; [|exact Hr2]. unfold Store.read_field. simpl.
    rewrite (StoreFacts.read_weaken _ _ _ _ _
               (StoreFacts.without_mono X _ _ Hsub2) Hr1).
    simpl. destruct t as [k' tv]. simpl in *. now subst.
Qed.

Lemma clone_items_fresh items ts :
  forall h : Store.heap,
    (forall l, l ∈ X -> is_Some (h !! l)) ->
    Forall2 (fun v t => Store.read n h v = Some t) items ts ->
    exists items' h',
      Store.clone_items rec items h = Some (items', h') /\ h ⊆ h'
      /\ Forall2 (fun v t => Store.read n (Store.without X h') v = Some t)
           items' ts.
Proof.
  revert ts. induction items as [|v items IH]; intros ts h HX Hf;
    inversion Hf as [|? t ? ts' Hhd Htl]; subst; simpl.
  - exists [], h. split; [reflexivity|split; [reflexivity|constructor]].
  - destruct (rec_fresh v h _ HX Hhd) as (v1 & h1 & -> & Hsub1 & Hr1). simpl.
    destruct (IH ts' h1) as (fs2 & h2 & -> & Hsub2 & Hr2).
    { now apply (is_Some_weaken h). }
    { eapply Forall2_impl; [exact Htl|]. intros x y.
      now apply StoreFacts.read_weaken. }
    simpl. exists (v1 :: fs2), h2.
    split; [reflexivity|split; [etransitivity; eauto|]].
    constructor; [|exact Hr2].
    eapply StoreFacts.read_weaken; [|exact Hr1].
    now apply StoreFacts.without_mono.
Qed.
End CloneFresh.

(** The value returned by [cloneDeep] stands for the tree of its argument
    in the heap without the cells [X] that existed before the call. *)
Lemma cloneDeep_fresh n (X : gset Store.loc) :
  forall v (h : Store.heap) t,
    (forall l, l ∈ X -> is_Some (h !! l)) ->
    Store.read n h v = Some t ->
    exists v' h',
      Store.cloneDeep n v h = Some (v', h') /\ h ⊆ h'
      /\ Store.read n (Store.without X h') v' = Some t.
Proof.
  induction n as [|n IH]; intros v h t HX; destruct v;
    try (intros H; eexists _, h;
         split; [reflexivity|split; [reflexivity|exact H]]);
    try discriminate.
  rewrite StoreFacts.read_ref. simpl Store.cloneDeep.
  assert (forall (h1 : Store.heap) c tc,
            h ⊆ h1 ->
            match Some c with
            | Some (Store.CObject fields) =>
                VObject <$> mapM (Store.read_field
                                    (Store.read n (Store.without X h1)))
                              fields
            | Some (Store.CInstance c fields) =>
                VInstance c <$> mapM (Store.read_field
                                        (Store.read n (Store.without X h1)))
                                  fields
            | Some (Store.CArray items) =>
                VArray <$> mapM (Store.read n (Store.without X h1)) items
            | None => None
            end = Some tc ->
            h ⊆ <[fresh (dom h1) := c]> h1
            /\ Store.read (S n)
                 (Store.without X (<[fresh (dom h1) := c]> h1))
                 (Store.HRef (fresh (dom h1))) = Some tc) as Halloc.
  { intros h1 c tc Hsub Hc.
    assert (h1 !! fresh (dom h1) = None) as Hfr
      by (apply not_elem_of_dom, is_fresh).
    split; [etransitivity; [exact Hsub|now apply insert_subseteq]|].
    rewrite StoreFacts.read_ref.
    assert (Store.without X (<[fresh (dom h1) := c]> h1) !! fresh (dom h1)
            = Some c) as ->.
    { apply StoreFacts.without_lookup. split; [apply lookup_insert_eq|].
      intros Hin. destruct (is_Some_weaken X h h1 Hsub HX _ Hin). congruence. }
    revert Hc. apply (StoreFacts.read_cell_impl _ _ (Some c)).
    intros x y. apply StoreFacts.read_weaken, StoreFacts.without_mono.
    now apply insert_subseteq. }
  destruct (h !! l) as [[fields|ctor fields|items]|]; [| | |discriminate];
    intros H; apply fmap_Some in H as (ts & H & ->); apply mapM_Some in H.
  - destruct (clone_fields_fresh n X _ (IH) fields ts h HX H)
      as (fs1 & h1 & -> & Hsub & Hr). simpl.
    eexists _, _. split; [reflexivity|]. apply Halloc; [exact Hsub|].
    apply fmap_Some. exists ts. split; [now apply mapM_Some | reflexivity].
  - destruct (clone_fields_fresh n X _ (IH) fields ts h HX H)
      as (fs1 & h1 & -> & Hsub & Hr). simpl.
    eexists _, _. split; [reflexivity|]. apply Halloc; [exact Hsub|].
    apply fmap_Some. exists ts. split; [now apply mapM_Some | reflexivity].
  - destruct (clone_items_fresh n X _ (IH) items ts h HX H)
      as (fs1 & h1 & -> & Hsub & Hr). simpl.
    eexists _, _. split; [reflexivity|]. apply Halloc; [exact Hsub|].
    apply fmap_Some. exists ts. split; [now apply mapM_Some | reflexivity].
Qed.

(** X6: outside a dry run, the value returned for a plain object or an
    array made of plain objects, arrays and primitive values, without
    property [__proto__], stands for the sanitized tree in the heap from
    which every cell that existed before the call has been removed: it is
    built from cells allocated during the call only, and shares none with
    the argument. *)
Theorem result_shares_nothing n (h : Store.heap) obj t options :
  Store.read n h obj = Some t ->
  wf_value t = true ->
  plain_data t = true ->
  ordinary t = true ->
  is_container t = true ->
  opt_flag (dryRun options) = false ->
  exists res h',
    Store._sanitize n obj options h = Some (res, h')
    /\ Store.read n (Store.without (dom h) h') (Store.target res)
       = Some (target (_sanitize t options)).
Proof.
  intros Hv Hw _ _ Hc Hd.
  assert (forall l, l ∈ dom h -> is_Some (h !! l)) as HX
    by (intros l; apply elem_of_dom).
  destruct (StoreFacts.kind_agree n h h obj t (reflexivity h) Hv) as [Ep Ea].
  pose proof (sanitize_target options t) as Htgt. rewrite Hd in Htgt.
  rewrite Htgt. unfold is_container in Hc.
  unfold Store._sanitize. rewrite Hd.
  destruct obj; try (destruct n; simpl in Hv; injection Hv as <-; discriminate).
  rewrite Ep, Ea.
  assert (negb (isPlainObject t) && negb (Array_isArray t) = false) as ->
    by (destruct (isPlainObject t), (Array_isArray t); auto; discriminate).
  destruct (cloneDeep_fresh n (dom h) _ h t HX Hv)
    as (tgt & h1 & -> & Hsub1 & Ht).
  destruct (StoreFacts.recursiveSanitize_refine (opt_replaceWith options)
              false (opt_flag (allowDots options)) n tgt t false (dom h) h1)
    as (r' & h2 & Erun & Hr');
    [ now apply (is_Some_weaken (dom h) h) | exact Ht | exact Hw |].
  with_strategy opaque [Store.read] simpl. rewrite Erun.
  with_strategy opaque [Store.read] simpl.
  eexists _, h2. split; [reflexivity|].
  with_strategy opaque [Store.read] simpl.
  rewrite Hr'. f_equal. unfold child_of, map_item. now rewrite Hc.
Qed.

Lemma result_shares_nothing_witness :
  let h : Store.heap :=
    <[0 := Store.CObject [("a.b", Store.HRef 1); ("n", Store.HNumber 1)]]>
      (<[1 := Store.CArray [Store.HString "$x"]]> ∅) in
  let t := VObject [("a.b", VArray [VString "$x"]); ("n", VNumber 1)] in
  exists res h',
    Store._sanitize 2 (Store.HRef 0) no_options h = Some (res, h')
    /\ Store.read 2 (Store.without (dom h) h') (Store.target res)
       = Some (target (_sanitize t no_options)).
Proof.
  apply (result_shares_nothing 2
           (<[0 := Store.CObject [("a.b", Store.HRef 1);
                                  ("n", Store.HNumber 1)]]>
              (<[1 := Store.CArray [Store.HString "$x"]]> ∅))
           (Store.HRef 0)
           (VObject [("a.b", VArray [VString "$x"]); ("n", VNumber 1)])
           no_options).
  - vm_compute. reflexivity.
  - reflexivity.
  - reflexivity.
  - reflexivity.
  - reflexivity.
  - reflexivity.
Defined.
(* ================================================================= *)
(** ** The middleware *)

Section MiddlewareFacts.
Variable qs_parse : string -> option bool -> value.
Variable options : Middleware.MiddlewareOptions.
Local Abbreviation eo := (Middleware.engine_options options).
Local Abbreviation run := (Middleware.expressSanitize qs_parse options).
Local Abbreviation blk := (fun f => block qs_parse options f (set_sanitized f)).

Lemma notify_app b f req tr :
  Middleware.notify options b f (req, tr)
  = (req, tr ++ (if b && Middleware.onSanitize options
                 then [Middleware.OnSanitize req f] else [])).
Proof.
  unfold Middleware.notify. simpl.
  destruct (b && Middleware.onSanitize options); [reflexivity|].
  now rewrite app_nil_r.
Qed.

(** Each block of the source is [block] at its field. *)
Lemma do_query_block st :
  Middleware.do_query qs_parse options st = blk Middleware.query_ st.
Proof.
  unfold Middleware.do_query, block, handed. destruct st as [req tr]. simpl.
  destruct (_ && _); [|reflexivity].
  destruct (indexOf (Middleware.url req) "?"); [|reflexivity].
  apply notify_app.
Qed.

Lemma do_params_block st :
  Middleware.do_params options st = blk Middleware.params_ st.
Proof.
  unfold Middleware.do_params, block, handed. destruct st as [req tr]. simpl.
  destruct (Middleware.params req) as [reqParams|]; [|reflexivity].
  destruct (_ && _); [|reflexivity].
  destruct (Middleware.collect_params reqParams) as [tempParams found].
  simpl. destruct found; [|reflexivity].
  apply notify_app.
Qed.

Lemma do_body_block st :
  Middleware.do_body options st = blk Middleware.body_ st.
Proof.
  unfold Middleware.do_body, block, handed. destruct st as [req tr]. simpl.
  destruct (_ && _ && _); [|reflexivity].
  apply notify_app.
Qed.

Lemma do_headers_block st :
  Middleware.do_headers options st = blk Middleware.headers_ st.
Proof.
  unfold Middleware.do_headers, block, handed. destruct st as [req tr]. simpl.
  destruct (_ && _ && _); [|reflexivity].
  apply notify_app.
Qed.

(** A block reads the request only through the parts that no block
    writes. *)
Lemma handed_inputs req req' f :
  inputs req' = inputs req ->
  handed qs_parse options req' f = handed qs_parse options req f.
Proof.
  unfold inputs. intros [= Hu Hp Hb Hh]. unfold handed.
  now rewrite Hu, Hp, Hb, Hh.
Qed.

Lemma block_inputs f st : inputs (blk f st).1 = inputs st.1.
Proof.
  unfold block. destruct (handed _ _ _ f); [|reflexivity].
  now destruct f.
Qed.

Lemma handed_block f g st :
  handed qs_parse options (blk f st).1 g = handed qs_parse options st.1 g.
Proof. apply handed_inputs, block_inputs. Qed.

Lemma handed_initialized req b q p h g :
  handed qs_parse options
    (Middleware.mkRequest (Middleware.url req) (Middleware.params req)
       (Middleware.body req) (Middleware.headers req) b q p h) g
  = handed qs_parse options req g.
Proof. now apply handed_inputs. Qed.

(** A block leaves the properties of the other fields as they are, and
    gives its own property the target of the engine. *)
Lemma block_sanitized f g st :
  sanitized_of (blk f st).1 g
  = if Middleware.field_eqb f g then
      match handed qs_parse options st.1 f with
      | Some x => target (_sanitize x eo)
      | None => sanitized_of st.1 g
      end
    else sanitized_of st.1 g.
Proof.
  unfold block. destruct (handed _ _ _ f); destruct f, g; reflexivity.
Qed.

Lemma block_reported f st :
  Middleware.reported (blk f st).2
  = Middleware.reported st.2
    ++ (if reports qs_parse options st.1 f then [f] else []).
Proof.
  unfold block, reports, Middleware.reported.
  destruct (handed _ _ _ f) as [x|]; simpl.
  - rewrite omap_app. f_equal.
    rewrite andb_comm. now destruct (_ && _).
  - now rewrite andb_false_r, app_nil_r.
Qed.

(** The middleware is the succession of the four blocks on the request
    with its four properties initialized, followed by [next()]. *)
Lemma run_blocks req :
  run req
  = let req0 :=
      Middleware.mkRequest (Middleware.url req) (Middleware.params req)
        (Middleware.body req) (Middleware.headers req)
        (Middleware.initialize (Middleware.sanitizedBody req))
        (Middleware.initialize (Middleware.sanitizedQuery req))
        (Middleware.initialize (Middleware.sanitizedParams req))
        (Middleware.initialize (Middleware.sanitizedHeaders req)) in
    let st :=
      blk Middleware.headers_
        (blk Middleware.body_
           (blk Middleware.params_ (blk Middleware.query_ (req0, [])))) in
    (st.1, st.2 ++ [Middleware.Next]).
Proof.
  unfold Middleware.expressSanitize. cbv zeta.
  now rewrite do_query_block, do_params_block, do_body_block,
    do_headers_block.
Qed.

(** The request when the middleware returns: the parts it reads are as they
    were; the property of a field holds the target of the engine when the
    field was handed to it, and otherwise what it held, or [{}] when that
    was falsy. *)
Lemma run_inputs req : inputs (run req).1 = inputs req.
Proof. rewrite run_blocks. cbv zeta. cbn [fst]. now rewrite !block_inputs. Qed.

Lemma run_sanitized req f :
  sanitized_of (run req).1 f
  = match handed qs_parse options req f with
    | Some x => target (_sanitize x eo)
    | None => Middleware.initialize (sanitized_of req f)
    end.
Proof.
  rewrite run_blocks. cbv zeta. cbn [fst snd].
  rewrite !block_sanitized, !handed_block. cbn [fst snd].
  rewrite !handed_initialized.
  destruct f; simpl; repeat case_match; reflexivity.
Qed.

Lemma run_reported req :
  Middleware.reported (run req).2
  = filter (fun f => reports qs_parse options req f = true)
      [Middleware.query_; Middleware.params_; Middleware.body_;
       Middleware.headers_].
Proof.
  rewrite run_blocks. cbv zeta. cbn [fst snd].
  assert (forall tr, Middleware.reported (tr ++ [Middleware.Next])
                     = Middleware.reported tr) as ->
    by (intros tr; unfold Middleware.reported; rewrite omap_app;
        apply app_nil_r).
  rewrite !block_reported. unfold reports.
  rewrite !handed_block. cbn [fst snd]. rewrite !handed_initialized.
  rewrite !filter_cons, filter_nil.
  repeat case_decide; repeat case_match; simpl; try reflexivity; congruence.
Qed.

(** Every call made by the blocks is a call of [onSanitize] for a field that
    was handed to the engine and flagged by it, with the request as the block
    of the field has left it. *)
Lemma block_calls req f st :
  inputs st.1 = inputs req ->
  Forall (fun e => exists r g x,
            e = Middleware.OnSanitize r g
            /\ inputs r = inputs req
            /\ handed qs_parse options req g = Some x
            /\ isSanitized (_sanitize x eo) = true
            /\ Middleware.onSanitize options = true
            /\ sanitized_of r g = target (_sanitize x eo)) st.2 ->
  Forall (fun e => exists r g x,
            e = Middleware.OnSanitize r g
            /\ inputs r = inputs req
            /\ handed qs_parse options req g = Some x
            /\ isSanitized (_sanitize x eo) = true
            /\ Middleware.onSanitize options = true
            /\ sanitized_of r g = target (_sanitize x eo)) (blk f st).2.
Proof.
  intros Hin Hall. unfold block.
  rewrite (handed_inputs req st.1 f Hin).
  destruct (handed qs_parse options req f) as [x|] eqn:Hx; [|exact Hall].
  cbn [snd]. apply Forall_app. split; [exact Hall|].
  destruct (isSanitized (_sanitize x eo)) eqn:Hf; [|constructor].
  destruct (Middleware.onSanitize options) eqn:Ho; [|constructor].
  constructor; [|constructor].
  eexists _, f, x. repeat split; try assumption; now destruct f.
Qed.

Lemma run_calls req :
  exists calls,
    (run req).2 = calls ++ [Middleware.Next]
    /\ Forall (fun e => exists r g x,
                 e = Middleware.OnSanitize r g
                 /\ inputs r = inputs req
                 /\ handed qs_parse options req g = Some x
                 /\ isSanitized (_sanitize x eo) = true
                 /\ Middleware.onSanitize options = true
                 /\ sanitized_of r g = target (_sanitize x eo)) calls.
Proof.
  rewrite run_blocks. cbv zeta. cbn [fst snd].
  eexists. split; [reflexivity|].
  repeat (apply block_calls; [now rewrite ?block_inputs|]).
  constructor.
Qed.

Lemma handed_selected req f x :
  handed qs_parse options req f = Some x ->
  Middleware.includes (Middleware.fieldsToSanitize options) f = true.
Proof.
  unfold handed. destruct f; repeat case_match; try discriminate; intros _;
    repeat match goal with
           | H : _ && _ = true |- _ => apply andb_true_iff in H as [H ?]
           end; assumption.
Qed.

(** Only the query string, as [qs] parses it, can make the middleware hand
    a string to the engine. *)
Lemma handed_not_string req f x :
  (forall s a, typeof (qs_parse s a) <> TString) ->
  handed qs_parse options req f = Some x -> typeof x <> TString.
Proof.
  intros Hqs. unfold handed.
  destruct f; repeat case_match; try discriminate; intros [= <-];
    try apply Hqs; try discriminate;
    repeat match goal with
           | H : _ && _ = true |- _ => apply andb_true_iff in H as [H ?]
           end;
    match goal with
    | H : jstype_eqb (typeof ?v) TObject = true |- _ => now destruct v
    end.
Qed.
End MiddlewareFacts.

(* ================================================================= *)
(** ** The middleware as a whole *)

Section MiddlewareRun.
Variable qs_parse : string -> option bool -> value.
Variable options : Middleware.MiddlewareOptions.
Local Abbreviation eo := (Middleware.engine_options options).
Local Abbreviation run := (Middleware.expressSanitize qs_parse options).

Lemma run_reported_elem req f :
  f ∈ Middleware.reported (run req).2
  <-> reports qs_parse options req f = true.
Proof.
  rewrite run_reported, list_elem_of_filter. split; [tauto|].
  intros H. split; [exact H|]. destruct f; set_solver.
Qed.

Lemma reported_calls calls :
  Forall (fun e => exists r g, e = Middleware.OnSanitize r g) calls ->
  length (Middleware.reported calls) = length calls.
Proof.
  induction 1 as [|e calls (r & g & ->) _ IH]; [reflexivity|].
  unfold Middleware.reported in *. cbn. now rewrite IH.
Qed.

(** No call of [onSanitize] is made when no field is reported. *)
Lemma run_silent req :
  (forall f, reports qs_parse options req f = false) ->
  (run req).2 = [Middleware.Next].
Proof.
  intros Hno. destruct (run_calls qs_parse options req) as (calls & E & Hall).
  assert (Middleware.reported (run req).2 = []) as Hnil.
  { rewrite run_reported.
    repeat (rewrite filter_cons_False by (rewrite Hno; discriminate)).
    reflexivity. }
  rewrite E in Hnil |- *.
  assert (length (Middleware.reported calls) = length calls) as Hlen.
  { apply reported_calls. eapply Forall_impl; [exact Hall|].
    intros e (r & g & x & -> & _). eauto. }
  unfold Middleware.reported in *. rewrite omap_app in Hnil.
  apply app_eq_nil in Hnil as [Hnil _]. rewrite Hnil in Hlen.
  now destruct calls.
Qed.

(** Two requests with the same four original parts and the same four
    sanitized properties are the same. *)
Lemma request_ext req req' :
  inputs req = inputs req' ->
  (forall f, sanitized_of req f = sanitized_of req' f) ->
  req = req'.
Proof.
  intros Hin Hs. destruct req, req'. unfold inputs in Hin. simpl in Hin.
  injection Hin as -> -> -> ->.
  pose proof (Hs Middleware.body_) as Hb.
  pose proof (Hs Middleware.query_) as Hq.
  pose proof (Hs Middleware.params_) as Hp.
  pose proof (Hs Middleware.headers_) as Hh.
  simpl in Hb, Hq, Hp, Hh. now subst.
Qed.

Lemma initialize_truthy v : ToBoolean (Middleware.initialize v) = true.
Proof. unfold Middleware.initialize. now destruct (ToBoolean v) eqn:E. Qed.

Lemma initialize_idempotent v :
  Middleware.initialize (Middleware.initialize v) = Middleware.initialize v.
Proof.
  unfold Middleware.initialize at 1. now rewrite initialize_truthy.
Qed.

End MiddlewareRun.

(** [indexOf] finds the first occurrence, and [substring] drops what
    precedes the index. *)
Lemma indexOf_app p c q :
  string_has (Ascii.eqb c) p = false ->
  indexOf (p ++ String c q) c = Some (String.length p).
Proof.
  induction p as [|d p IH]; simpl.
  - now rewrite Ascii.eqb_refl.
  - intros H. apply orb_false_iff in H as [Hd Hp].
    rewrite Ascii.eqb_sym in Hd. rewrite Hd, IH by exact Hp. reflexivity.
Qed.

Lemma indexOf_None s c :
  string_has (Ascii.eqb c) s = false <-> indexOf s c = None.
Proof.
  induction s as [|d s IH]; simpl; [tauto|].
  rewrite (Ascii.eqb_sym c d). destruct (Ascii.eqb d c); simpl.
  - split; discriminate.
  - rewrite IH. destruct (indexOf s c); simpl; split; congruence.
Qed.

Lemma substring_app p q : substring (p ++ q) (String.length p) = q.
Proof.
  induction p as [|d p IH]; simpl; [now destruct q|exact IH].
Qed.

Lemma substring_app_S p c q :
  substring (p ++ String c q) (String.length p + 1) = q.
Proof.
  induction p as [|d p IH]; simpl; [now destruct q|exact IH].
Qed.

(** The loop over [req.params] copies every property, in order. *)
Lemma copy_own_fold reqParams keys tempParams paramsFound :
  Forall (fun k => has_key reqParams k = true) keys ->
  Middleware.copy_own reqParams keys tempParams paramsFound
  = (fold_left (fun t k => obj_set t k (prop reqParams k)) keys tempParams,
     paramsFound || negb (Nat.eqb (length keys) 0)).
Proof.
  intros H. revert tempParams paramsFound.
  induction H as [|k keys Hk _ IH]; intros tempParams paramsFound; simpl.
  - now rewrite orb_false_r.
  - rewrite Hk, IH. simpl. now rewrite orb_true_r.
Qed.

Lemma has_key_keys {V} (obj : list (string * V)) :
  Forall (fun k => has_key obj k = true) (Object_keys obj).
Proof.
  apply List.Forall_forall. intros k Hin.
  apply in_map_iff in Hin as ([k' v] & <- & Hin).
  now apply In_has_key in Hin.
Qed.

Lemma has_key_assigned {V} (obj : list (string * V)) k :
  has_key obj k = false -> has_key (assigned obj) k = false.
Proof.
  induction obj as [|[k0 w] obj IH]; simpl; [reflexivity|].
  intros H. apply orb_false_iff in H as [Hk H].
  destruct (negb (String.eqb k0 proto_name)); simpl; [|now apply IH].
  now rewrite Hk, IH.
Qed.

Lemma assigned_app {V} (obj obj' : list (string * V)) :
  assigned (obj ++ obj') = assigned obj ++ assigned obj'.
Proof. unfold assigned. apply List.filter_app. Qed.

Lemma assigned_same {V} (obj : list (string * V)) :
  has_key obj proto_name = false -> assigned obj = obj.
Proof.
  induction obj as [|[k0 w] obj IH]; simpl; [reflexivity|].
  intros H. apply orb_false_iff in H as [Hk H].
  now rewrite Hk, IH.
Qed.

Lemma copy_distinct reqParams done rest :
  reqParams = done ++ rest ->
  distinct_keys reqParams = true ->
  fold_left (fun t k => obj_set t k (prop reqParams k)) (Object_keys rest)
    (assigned done)
  = assigned reqParams.
Proof.
  revert done. induction rest as [|[k v] rest IH]; intros done E Hd; simpl.
  - now rewrite app_nil_r in E; subst.
  - assert (prop reqParams k = v) as ->.
    { unfold prop. rewrite (StoreFacts.obj_get_distinct reqParams k v Hd);
        [reflexivity|]. subst. apply in_or_app. right. now left. }
    assert (has_key done k = false) as Hk.
    { subst reqParams. clear IH. induction done as [|[k0 w] done IH]; simpl;
        [reflexivity|].
      simpl in Hd. apply andb_true_iff in Hd as [H0 Hd].
      rewrite IH by exact Hd. rewrite orb_false_r.
      apply negb_true_iff in H0. rewrite has_key_app in H0.
      apply orb_false_iff in H0 as [_ H0]. simpl in H0.
      apply orb_false_iff in H0 as [H0 _].
      now rewrite String.eqb_sym. }
    assert (obj_set (assigned done) k v = assigned (done ++ [(k, v)])) as ->.
    { rewrite assigned_app. simpl. unfold obj_set.
      destruct (String.eqb k proto_name); simpl; [now rewrite app_nil_r|].
      apply put_own_new. now apply has_key_assigned. }
    apply IH; [|exact Hd]. now rewrite <- app_assoc.
Qed.

(** Whenever the loop is entered it finds a property, so that the fallback
    on [getOwnPropertyNames] contributes nothing. *)
Lemma collect_params_loop reqParams :
  Middleware.collect_params reqParams
  = Middleware.copy_own reqParams (Object_keys reqParams) [] false.
Proof.
  unfold Middleware.collect_params.
  rewrite copy_own_fold by apply has_key_keys. simpl.
  destruct reqParams as [|[k v] rest]; reflexivity.
Qed.

Lemma collect_params_distinct reqParams :
  reqParams <> [] -> distinct_keys reqParams = true ->
  Middleware.collect_params reqParams = (assigned reqParams, true).
Proof.
  intros Hne Hd. rewrite collect_params_loop.
  rewrite copy_own_fold by apply has_key_keys.
  pose proof (copy_distinct reqParams [] reqParams eq_refl Hd) as E.
  simpl in E. rewrite E.
  now destruct reqParams.
Qed.

(** What the engine returns for a truthy value is truthy, as long as the
    value is no string. *)
Lemma target_truthy v options :
  typeof v <> TString -> ToBoolean v = true ->
  ToBoolean (target (_sanitize v options)) = true.
Proof.
  intros Hs Hv. rewrite sanitize_target.
  destruct (opt_flag (dryRun options)); [exact Hv|].
  destruct v; try (rewrite child_of_other by (reflexivity || discriminate);
                   exact Hv).
  - now destruct Hs.
  - destruct (isPlainObject (VObject fields)) eqn:Hp.
    + now rewrite child_of_object.
    + rewrite child_of_other; [reflexivity| |discriminate].
      unfold is_container. now rewrite Hp.
  - now rewrite child_of_array.
Qed.

(* ================================================================= *)
(** ** Properties of the middleware *)

(** X7: whatever the options and the request, the middleware calls [next]
    exactly once, as its last action; every call before it is a call of
    [onSanitize], made only when the option holds a function; and neither
    at such a call nor at the end have [url], [params], [body] or [headers]
    of the request been reassigned. *)
Theorem next_called_last qs_parse options req :
  exists calls,
    (Middleware.expressSanitize qs_parse options req).2
    = calls ++ [Middleware.Next]
    /\ Forall (fun e => exists r key,
                 e = Middleware.OnSanitize r key
                 /\ Middleware.onSanitize options = true
                 /\ inputs r = inputs req) calls
    /\ inputs (Middleware.expressSanitize qs_parse options req).1
       = inputs req.
Proof.
  destruct (run_calls qs_parse options req) as (calls & E & Hall).
  exists calls. split; [exact E|]. split; [|apply run_inputs].
  eapply Forall_impl; [exact Hall|].
  intros e (r & g & x & -> & Hin & _ & _ & Ho & _). eauto.
Qed.

(** X8: [onSanitize] is called at most once for a field, in the order
    query, params, body, headers, and only for fields listed in
    [options.fields] (all four when the option is missing); without a
    callback function nothing is reported. *)
Theorem callbacks_in_block_order qs_parse options req :
  sublist
    (Middleware.reported (Middleware.expressSanitize qs_parse options req).2)
    [Middleware.query_; Middleware.params_; Middleware.body_;
     Middleware.headers_]
  /\ Forall (fun f => Middleware.includes
                        (Middleware.fieldsToSanitize options) f = true)
       (Middleware.reported
          (Middleware.expressSanitize qs_parse options req).2)
  /\ (Middleware.onSanitize options = true
      \/ (Middleware.expressSanitize qs_parse options req).2
         = [Middleware.Next]).
Proof.
  split; [|split].
  - rewrite run_reported. apply sublist_filter.
  - apply Forall_forall. intros f Hf.
    apply run_reported_elem in Hf. unfold reports in Hf.
    apply andb_true_iff in Hf as [_ Hf].
    destruct (handed qs_parse options req f) as [x|] eqn:Hx; [|discriminate].
    eapply handed_selected, Hx.
  - destruct (Middleware.onSanitize options) eqn:Ho; [now left|right].
    apply run_silent. intros f. unfold reports. now rewrite Ho.
Qed.

(** X9: in a dry run, as long as [qs.parse] returns no string, the
    middleware never calls [onSanitize], whatever the request holds, and
    each property it assigns is the very value it has handed to the engine. *)
Theorem dry_run_never_reports qs_parse options req :
  opt_flag (Middleware.dryRun options) = true ->
  (forall s a, typeof (qs_parse s a) <> TString) ->
  (Middleware.expressSanitize qs_parse options req).2 = [Middleware.Next]
  /\ forall f x,
       handed qs_parse options req f = Some x ->
       sanitized_of (Middleware.expressSanitize qs_parse options req).1 f = x.
Proof.
  intros Hd Hqs. split.
  - apply run_silent. intros f. unfold reports.
    destruct (handed qs_parse options req f) as [x|] eqn:Hx;
      [|apply andb_false_r].
    rewrite sanitize_flag. simpl dryRun. rewrite Hd.
    pose proof (handed_not_string _ _ _ _ _ Hqs Hx) as Hs.
    destruct x; try apply andb_false_r. now destruct Hs.
  - intros f x Hx. rewrite run_sanitized, Hx, sanitize_target.
    simpl dryRun. now rewrite Hd.
Qed.

Lemma dry_run_never_reports_witness :
  let qs_parse := fun (_ : string) (_ : option bool) =>
                    VObject [("$where", VString "1")] in
  let options :=
    Middleware.mkMiddlewareOptions None true (Some true) None None in
  let req :=
    Middleware.mkRequest "/find?$where=1" (Some [("id", VString "$a")])
      (VObject [("$gt", VNumber 1)]) (VObject [("host", VString "a.b")])
      VUndefined VUndefined VUndefined VUndefined in
  (Middleware.expressSanitize qs_parse options req).2 = [Middleware.Next]
  /\ forall f x,
       handed qs_parse options req f = Some x ->
       sanitized_of (Middleware.expressSanitize qs_parse options req).1 f = x.
Proof.
  apply (dry_run_never_reports
           (fun _ _ => VObject [("$where", VString "1")])
           (Middleware.mkMiddlewareOptions None true (Some true) None None)
           (Middleware.mkRequest "/find?$where=1"
              (Some [("id", VString "$a")])
              (VObject [("$gt", VNumber 1)])
              (VObject [("host", VString "a.b")])
              VUndefined VUndefined VUndefined VUndefined)).
  - reflexivity.
  - intros s a. discriminate.
Defined.

(** X10: the outcome for one field does not depend on the other three.
    When the middleware hands a value of the field to the engine, the
    property of the field is in the end what [sanitize] returns for that
    value, the field is reported exactly when a callback function is given
    and the engine has set its flag, and the request passed to the callback
    already holds that property; when it skips the field, the property is
    the one found, or the empty object if that was falsy, and the field is
    not reported. *)
Theorem field_outcome qs_parse options req f :
  match handed qs_parse options req f with
  | Some x =>
      sanitized_of (Middleware.expressSanitize qs_parse options req).1 f
      = sanitize x (Some (Middleware.engine_options options))
      /\ (f ∈ Middleware.reported
                (Middleware.expressSanitize qs_parse options req).2
          <-> Middleware.onSanitize options = true
              /\ isSanitized (_sanitize x (Middleware.engine_options options))
                 = true)
      /\ Forall (fun e =>
                   forall r, e = Middleware.OnSanitize r f ->
                   sanitized_of r f
                   = sanitize x (Some (Middleware.engine_options options)))
           (Middleware.expressSanitize qs_parse options req).2
  | None =>
      sanitized_of (Middleware.expressSanitize qs_parse options req).1 f
      = Middleware.initialize (sanitized_of req f)
      /\ f ∉ Middleware.reported
               (Middleware.expressSanitize qs_parse options req).2
  end.
Proof.
  pose proof (run_sanitized qs_parse options req f) as Hs.
  pose proof (run_reported_elem qs_parse options req f) as Hr.
  unfold reports in Hr.
  destruct (handed qs_parse options req f) as [x|] eqn:Hx.
  - split; [exact Hs|]. split.
    + rewrite Hr. apply andb_true_iff.
    + destruct (run_calls qs_parse options req) as (calls & E & Hall).
      rewrite E. apply Forall_app. split.
      * eapply Forall_impl; [exact Hall|].
        intros e (r & g & y & -> & _ & Hy & _ & _ & Hval) r' [= <- <-].
        rewrite Hx in Hy. injection Hy as <-. exact Hval.
      * constructor; [|constructor]. discriminate.
  - split; [exact Hs|]. rewrite Hr, andb_false_r. discriminate.
Qed.

(** X11: outside a dry run and with a callback function, a field whose
    value, a tree without property [__proto__], is handed to the engine is
    reported exactly when a property name or a string of that value, among
    those the engine reaches through plain objects and arrays, holds a
    forbidden character. *)
Theorem callback_iff_forbidden qs_parse options req f x :
  opt_flag (Middleware.dryRun options) = false ->
  Middleware.onSanitize options = true ->
  handed qs_parse options req f = Some x ->
  ordinary x = true ->
  f ∈ Middleware.reported (Middleware.expressSanitize qs_parse options req).2
  <-> tree_has (opt_flag (Middleware.allowDots options)) x = true.
Proof.
  intros Hd Ho Hx _. rewrite run_reported_elem. unfold reports.
  rewrite Ho, Hx, isSanitized_run by exact Hd. reflexivity.
Qed.

Lemma callback_iff_forbidden_witness :
  let qs_parse := fun (_ : string) (_ : option bool) => VObject [] in
  let options := Middleware.mkMiddlewareOptions None true None None None in
  let req :=
    Middleware.mkRequest "/find" None
      (VObject [("user", VObject [("$gt", VNumber 1)])]) VUndefined
      VUndefined VUndefined VUndefined VUndefined in
  Middleware.body_
    ∈ Middleware.reported (Middleware.expressSanitize qs_parse options req).2
  <-> tree_has false (VObject [("user", VObject [("$gt", VNumber 1)])]) = true.
Proof.
  apply (callback_iff_forbidden
           (fun _ _ => VObject [])
           (Middleware.mkMiddlewareOptions None true None None None)
           (Middleware.mkRequest "/find" None
              (VObject [("user", VObject [("$gt", VNumber 1)])]) VUndefined
              VUndefined VUndefined VUndefined VUndefined)
           Middleware.body_); reflexivity.
Defined.

(** X12: when the query is processed, the text parsed is what follows the
    first question mark of [req.url], and [sanitizedQuery] is the sanitized
    result of [qs.parse] on it; a URL without question mark leaves
    [sanitizedQuery] as found, or as the empty object, and reports
    nothing for the query. *)
Theorem query_is_after_first_mark qs_parse options req :
  Middleware.includes (Middleware.fieldsToSanitize options) Middleware.query_
  = true ->
  (forall p q,
     Middleware.url req = p +:+ String "?" q ->
     string_has (Ascii.eqb "?") p = false ->
     Middleware.sanitizedQuery
       (Middleware.expressSanitize qs_parse options req).1
     = sanitize (qs_parse q (Middleware.allowDots options))
         (Some (Middleware.engine_options options)))
  /\ (string_has (Ascii.eqb "?") (Middleware.url req) = false ->
      Middleware.sanitizedQuery
        (Middleware.expressSanitize qs_parse options req).1
      = Middleware.initialize (Middleware.sanitizedQuery req)
      /\ Middleware.query_
         ∉ Middleware.reported
             (Middleware.expressSanitize qs_parse options req).2).
Proof.
  intros Hsel. split.
  - intros p q Hurl Hp.
    pose proof (run_sanitized qs_parse options req Middleware.query_) as Hs.
    unfold handed in Hs. rewrite Hsel, Hurl in Hs.
    rewrite indexOf_app, substring_app_S in Hs by exact Hp.
    replace (ToBoolean (VString (p +:+ String "?" q))) with true in Hs
      by now destruct p.
    exact Hs.
  - intros Hno.
    pose proof (run_sanitized qs_parse options req Middleware.query_) as Hs.
    pose proof (run_reported_elem qs_parse options req Middleware.query_)
      as Hr.
    unfold reports in Hr. unfold handed in Hs, Hr.
    apply indexOf_None in Hno. rewrite Hno in Hs, Hr.
    destruct (_ && ToBoolean _) in Hs, Hr;
      (split; [exact Hs|]);
      rewrite Hr, andb_false_r; discriminate.
Qed.

Lemma query_is_after_first_mark_witness :
  let qs_parse := fun (s : string) (_ : option bool) =>
                    VObject [(s, VString "$ne")] in
  let options := Middleware.mkMiddlewareOptions None false None None None in
  let req :=
    Middleware.mkRequest "/a?b?c" None VUndefined VUndefined
      VUndefined VUndefined VUndefined VUndefined in
  Middleware.sanitizedQuery (Middleware.expressSanitize qs_parse options req).1
  = VObject [("b?c", VString "_ne")].
Proof.
  refine (proj1 (query_is_after_first_mark
                   (fun s _ => VObject [(s, VString "$ne")])
                   (Middleware.mkMiddlewareOptions None false None None None)
                   (Middleware.mkRequest "/a?b?c" None VUndefined VUndefined
                      VUndefined VUndefined VUndefined VUndefined)
                   eq_refl) "/a" "b?c" eq_refl eq_refl).
Defined.

(** X13: the route parameters, when selected, present and not empty, are
    sanitized as the plain object to which their properties have been
    assigned one by one, which has them all when none is named [__proto__]:
    [sanitizedParams] is what [sanitize] returns for it, and the callback is
    made exactly when a function is given and the engine has set its
    flag. *)
Theorem params_sanitized_as_object qs_parse options req reqParams :
  Middleware.includes (Middleware.fieldsToSanitize options) Middleware.params_
  = true ->
  Middleware.params req = Some reqParams ->
  reqParams <> [] ->
  distinct_keys reqParams = true ->
  Middleware.sanitizedParams
    (Middleware.expressSanitize qs_parse options req).1
  = sanitize (VObject (assigned reqParams))
      (Some (Middleware.engine_options options))
  /\ (Middleware.params_
      ∈ Middleware.reported
          (Middleware.expressSanitize qs_parse options req).2
      <-> Middleware.onSanitize options = true
          /\ isSanitized (_sanitize (VObject (assigned reqParams))
                            (Middleware.engine_options options)) = true)
  /\ (has_key reqParams proto_name = false -> assigned reqParams = reqParams).
Proof.
  intros Hsel Hp Hne Hd.
  assert (handed qs_parse options req Middleware.params_
          = Some (VObject (assigned reqParams))) as Hx.
  { unfold handed. rewrite Hsel, Hp, collect_params_distinct by assumption.
    now destruct reqParams. }
  split; [|split].
  - pose proof (run_sanitized qs_parse options req Middleware.params_) as Hs.
    now rewrite Hx in Hs.
  - rewrite run_reported_elem. unfold reports. rewrite Hx.
    apply andb_true_iff.
  - apply assigned_same.
Qed.

Lemma params_sanitized_as_object_witness :
  let qs_parse := fun (_ : string) (_ : option bool) => VObject [] in
  let options := Middleware.mkMiddlewareOptions None true None None None in
  let reqParams := [("id", VString "$ne"); ("a.b", VString "x")] in
  let req :=
    Middleware.mkRequest "/u/$ne/x" (Some reqParams) VUndefined VUndefined
      VUndefined VUndefined VUndefined VUndefined in
  Middleware.sanitizedParams
    (Middleware.expressSanitize qs_parse options req).1
  = sanitize (VObject (assigned reqParams))
      (Some (Middleware.engine_options options))
  /\ (Middleware.params_
      ∈ Middleware.reported
          (Middleware.expressSanitize qs_parse options req).2
      <-> Middleware.onSanitize options = true
          /\ isSanitized (_sanitize (VObject (assigned reqParams))
                            (Middleware.engine_options options)) = true)
  /\ (has_key reqParams proto_name = false -> assigned reqParams = reqParams).
Proof.
  apply (params_sanitized_as_object
           (fun _ _ => VObject [])
           (Middleware.mkMiddlewareOptions None true None None None)
           (Middleware.mkRequest "/u/$ne/x"
              (Some [("id", VString "$ne"); ("a.b", VString "x")])
              VUndefined VUndefined
              VUndefined VUndefined VUndefined VUndefined)
           [("id", VString "$ne"); ("a.b", VString "x")]);
    [reflexivity | reflexivity | discriminate | reflexivity].
Defined.

(** X14: the fallback on [Object.getOwnPropertyNames] never contributes:
    the copy of the parameters is the one made by the [for ... in] loop,
    which finds a property exactly when there is one. *)
Theorem fallback_contributes_nothing reqParams :
  Middleware.collect_params reqParams
  = Middleware.copy_own reqParams (Object_keys reqParams) [] false
  /\ snd (Middleware.collect_params reqParams)
     = negb (Nat.eqb (length reqParams) 0).
Proof.
  rewrite collect_params_loop. split; [reflexivity|].
  rewrite copy_own_fold by apply has_key_keys. simpl.
  unfold Object_keys. now rewrite length_fmap.
Qed.

(** X15: outside a dry run and with a replacement text that holds neither
    a forbidden character nor a pattern, when the value the middleware
    hands to the engine for a field is made of plain objects, arrays and
    primitive values and has no property [__proto__], the sanitized
    property of the field holds no forbidden character in any property name
    or string once the middleware has run; a field that is skipped keeps a
    property that held none. *)
Theorem sanitized_properties_clean qs_parse options req f :
  opt_flag (Middleware.dryRun options) = false ->
  has_pattern (opt_replaceWith (Middleware.engine_options options)) = false ->
  string_has (forbidden (opt_flag (Middleware.allowDots options)))
    (opt_replaceWith (Middleware.engine_options options)) = false ->
  match handed qs_parse options req f with
  | Some x => plain_data x = true /\ ordinary x = true
  | None =>
      occurs (opt_flag (Middleware.allowDots options)) (sanitized_of req f)
      = false
  end ->
  occurs (opt_flag (Middleware.allowDots options))
    (sanitized_of (Middleware.expressSanitize qs_parse options req).1 f)
  = false.
Proof.
  intros Hd Hr Hc Hinit. rewrite run_sanitized.
  destruct (handed qs_parse options req f) as [x|].
  - destruct Hinit as [Hp _].
    rewrite sanitize_target. simpl dryRun. rewrite Hd.
    now destruct (child_of_clean _ _ Hc Hr x Hp).
  - unfold Middleware.initialize.
    now destruct (ToBoolean (sanitized_of req f)).
Qed.

Lemma sanitized_properties_clean_witness :
  let qs_parse := fun (s : string) (_ : option bool) =>
                    VObject [(s, VString "$ne")] in
  let options := Middleware.mkMiddlewareOptions None false None None None in
  let req :=
    Middleware.mkRequest "/a?$where" None VUndefined VUndefined
      VUndefined VUndefined VUndefined VUndefined in
  occurs false
    (sanitized_of (Middleware.expressSanitize qs_parse options req).1
       Middleware.query_) = false.
Proof.
  apply (sanitized_properties_clean
           (fun s _ => VObject [(s, VString "$ne")])
           (Middleware.mkMiddlewareOptions None false None None None)
           (Middleware.mkRequest "/a?$where" None VUndefined VUndefined
              VUndefined VUndefined VUndefined VUndefined)
           Middleware.query_); try reflexivity.
  split; reflexivity.
Defined.

(** X16: running the middleware a second time on the request it has left
    changes nothing in the request, and reports the same fields. *)
Theorem middleware_idempotent qs_parse options req :
  (Middleware.expressSanitize qs_parse options
     (Middleware.expressSanitize qs_parse options req).1).1
  = (Middleware.expressSanitize qs_parse options req).1
  /\ Middleware.reported
       (Middleware.expressSanitize qs_parse options
          (Middleware.expressSanitize qs_parse options req).1).2
     = Middleware.reported
         (Middleware.expressSanitize qs_parse options req).2.
Proof.
  assert (forall f,
            handed qs_parse options
              (Middleware.expressSanitize qs_parse options req).1 f
            = handed qs_parse options req f) as Hh
    by (intros f; apply handed_inputs, run_inputs).
  split.
  - apply request_ext; [now rewrite !run_inputs|].
    intros f. rewrite run_sanitized, Hh.
    rewrite (run_sanitized qs_parse options req f).
    destruct (handed qs_parse options req f); [reflexivity|].
    apply initialize_idempotent.
  - rewrite !run_reported. unfold reports.
    repeat (rewrite ?filter_cons; rewrite Hh). reflexivity.
Qed.

(** X17: as long as [qs.parse] returns a plain object, all four sanitized
    properties are truthy once the middleware has run, in a dry run or
    not. *)
Theorem sanitized_properties_truthy qs_parse options req f :
  (forall s a, exists fields, qs_parse s a = VObject fields) ->
  ToBoolean
    (sanitized_of (Middleware.expressSanitize qs_parse options req).1 f)
  = true.
Proof.
  intros Hqs. rewrite run_sanitized.
  destruct (handed qs_parse options req f) as [x|] eqn:Hx;
    [|apply initialize_truthy].
  assert (typeof x <> TString /\ ToBoolean x = true) as [Hs Ht].
  { unfold handed in Hx.
    destruct f; repeat case_match; try discriminate;
      injection Hx as <-;
      repeat match goal with
             | H : _ && _ = true |- _ => apply andb_true_iff in H as [H ?]
             end;
      try (split; [|assumption || reflexivity]);
      try match goal with
          | |- typeof (qs_parse ?s ?a) <> _ /\ _ =>
              destruct (Hqs s a) as [fields ->]; split
          end;
      try discriminate; try reflexivity;
      match goal with
      | H : jstype_eqb (typeof ?v) TObject = true |- _ => now destruct v
      end. }
  now apply target_truthy.
Qed.

Lemma sanitized_properties_truthy_witness :
  let qs_parse := fun (s : string) (_ : option bool) =>
                    VObject [(s, VNull)] in
  let options :=
    Middleware.mkMiddlewareOptions None false (Some true) None None in
  let req :=
    Middleware.mkRequest "/a?b" None (VString "$") VNull
      VUndefined (VNumber 0) VUndefined VUndefined in
  ToBoolean
    (sanitized_of (Middleware.expressSanitize qs_parse options req).1
       Middleware.body_) = true.
Proof.
  apply (sanitized_properties_truthy
           (fun s _ => VObject [(s, VNull)])
           (Middleware.mkMiddlewareOptions None false (Some true) None None)
           (Middleware.mkRequest "/a?b" None (VString "$") VNull
              VUndefined (VNumber 0) VUndefined VUndefined)
           Middleware.body_).
  intros s a. eexists. reflexivity.
Defined.

